(** * comp.py: the LR driver, its scanner and its derivation tree

    A shallow embedding of [Traductores_II/comp.py]: the linked stack
    [Pila], the tree node [Arbol], the scanner [analizador_lexico] with
    its ordered pattern table, and the table-driven automaton
    [analizar] / [desplazar] / [reducir] of [AnalizadorLR].

    Conventions of the embedding.
    - A Python [str] is a [string]; one [ascii] is one character, read
      as the code point of the same number (U+0000 to U+00FF).  The
      classes [isspace], [\w], [\d] are Python's on those code points.
    - A Python [int] is a [Z].
    - The pandas table is a value of [Tabla]: its column labels and a
      cell lookup that can fail (label not in the index) or give the
      cell: blank (NaN), a [str], or a number of a numeric column,
      which is given by what [str] and [int] make of it.
    - An exception that leaves [analizar] is the result [Falla e];
      [exit()] is the result [Termina].  Of the object that raised
      nothing is kept, since nothing reads it afterwards.
    - Writing the report files changes nothing of the object and is
      left out of the runs; what is written is modelled apart
      ([texto_salida], [texto_arbol]), the dump of the tree with the
      bound that the interpreter puts on nested calls.
    - Reading a file is a parameter: the text that [open] and [read]
      give, or their failure. *)

From Stdlib Require Import String Ascii ZArith Bool Arith Lia List.
From Stdlib Require Import DecimalString.
Import ListNotations.
Local Open Scope string_scope.
Local Open Scope list_scope.
Local Open Scope nat_scope.

(* ------------------------------------------------------------------ *)
(** ** Text primitives of Python used by the program *)

Module Texto.

Definition codigo (c : ascii) : nat := nat_of_ascii c.

Definition entre (a b : nat) (c : ascii) : bool :=
  (a <=? codigo c) && (codigo c <=? b).

(** [str.isspace] on one character. *)
Definition es_espacio (c : ascii) : bool :=
  entre 9 13 c || entre 28 32 c || (codigo c =? 133) || (codigo c =? 160).

(** [\d]: the decimal digits. *)
Definition es_digito (c : ascii) : bool := entre 48 57 c.

Definition es_mayuscula (c : ascii) : bool := entre 65 90 c.
Definition es_minuscula (c : ascii) : bool := entre 97 122 c.
Definition es_guion_bajo (c : ascii) : bool := codigo c =? 95.

(** [\w]: [str.isalnum] or the underscore. *)
Definition es_palabra (c : ascii) : bool :=
  es_digito c || es_mayuscula c || es_minuscula c || es_guion_bajo c
  || (codigo c =? 170) || entre 178 179 c || (codigo c =? 181)
  || entre 185 186 c || entre 188 190 c
  || entre 192 214 c || entre 216 246 c || entre 248 255 c.

Definition caracteres (s : string) : list ascii := list_ascii_of_string s.
Definition cadena (l : list ascii) : string := string_of_list_ascii l.

(** [s.startswith(p)]. *)
Definition startswith (p s : string) : bool := String.prefix p s.

(** [s[1:]]. *)
Definition desde_1 (s : string) : string :=
  match s with EmptyString => EmptyString | String _ r => r end.

Fixpoint quitar_mientras (p : ascii -> bool) (l : list ascii) : list ascii :=
  match l with
  | c :: r => if p c then quitar_mientras p r else l
  | [] => []
  end.

(** Strip from both ends the characters that satisfy [p]. *)
Definition strip_con (p : ascii -> bool) (s : string) : string :=
  cadena (rev (quitar_mientras p (rev (quitar_mientras p (caracteres s))))).

(** [s.strip()]. *)
Definition strip (s : string) : string := strip_con es_espacio s.

(** [s.strip('<>')]. *)
Definition strip_angulos (s : string) : string :=
  strip_con (fun c => (codigo c =? 60) || (codigo c =? 62)) s.

(** [sep.join(l)]. *)
Definition join (sep : string) (l : list string) : string := String.concat sep l.

(** [s.split()]: the maximal runs of non-space characters. *)
Fixpoint split_blancos_aux (l : list ascii) (actual : list ascii) : list string :=
  match l with
  | [] => match actual with [] => [] | _ => [cadena (rev actual)] end
  | c :: r =>
      if es_espacio c
      then match actual with
           | [] => split_blancos_aux r []
           | _ => cadena (rev actual) :: split_blancos_aux r []
           end
      else split_blancos_aux r (c :: actual)
  end.

Definition split_blancos (s : string) : list string :=
  split_blancos_aux (caracteres s) [].

Fixpoint es_prefijo (p l : list ascii) : option (list ascii) :=
  match p, l with
  | [], _ => Some l
  | a :: p', b :: l' => if Ascii.eqb a b then es_prefijo p' l' else None
  | _ :: _, [] => None
  end.

(** [s.split(sep)] for a non-empty separator; [saltar] counts the
    characters of a separator just found that are still to be skipped. *)
Fixpoint split_sep_aux (sep l actual : list ascii) (saltar : nat) : list string :=
  match l with
  | [] => [cadena (rev actual)]
  | c :: r =>
      match saltar with
      | S n => split_sep_aux sep r actual n
      | O =>
          match es_prefijo sep l with
          | Some _ => cadena (rev actual) :: split_sep_aux sep r [] (length sep - 1)
          | None => split_sep_aux sep r (c :: actual) 0
          end
      end
  end.

Definition split_sep (sep s : string) : list string :=
  split_sep_aux (caracteres sep) (caracteres s) [] 0.

(** [str(n)] for an [int]. *)
Definition str_int (n : Z) : string := NilZero.string_of_int (Z.to_int n).

(** The value of a run of decimal digits, in which single underscores
    may separate digits. *)
Fixpoint valor_digitos (l : list ascii) (acc : Z) : option Z :=
  match l with
  | [] => Some acc
  | c :: r =>
      if es_digito c
      then valor_digitos r (10 * acc + Z.of_nat (codigo c - 48))
      else if es_guion_bajo c
      then match r with
           | d :: _ => if es_digito d then valor_digitos r acc else None
           | [] => None
           end
      else None
  end.

(** The blanks that [int] skips at both ends of a [str]: the ASCII
    blanks, U+0085 and U+00A0; not the separators U+001C to U+001F,
    which [str.strip] does skip. *)
Definition es_blanco_de_int (c : ascii) : bool :=
  entre 9 13 c || (codigo c =? 32) || (codigo c =? 133) || (codigo c =? 160).

(** The longest run of digits that [int] converts
    ([sys.get_int_max_str_digits()]). *)
Definition max_str_digits : nat := 4300.

(** [int(s)] for a [str]: surrounding blanks, an optional sign, and
    decimal digits that start with a digit, no more of them than
    [max_str_digits]; anything else raises [ValueError] ([None]). *)
Definition int_py (s : string) : option Z :=
  let cuerpo := caracteres (strip_con es_blanco_de_int s) in
  let leer (l : list ascii) : option Z :=
    match l with
    | c :: _ =>
        if es_digito c && (length (filter es_digito l) <=? max_str_digits)
        then valor_digitos l 0
        else None
    | [] => None
    end in
  match cuerpo with
  | c :: r =>
      if codigo c =? 45 then option_map Z.opp (leer r)
      else if codigo c =? 43 then leer r
      else leer cuerpo
  | [] => None
  end.

End Texto.

Import Texto.

(* ------------------------------------------------------------------ *)
(** ** The regular expressions of the scanner

    The fragment of Python's [re] that [patrones] uses, matched the way
    [re] matches: by backtracking, the left alternative first, a greedy
    repetition longest first, a lazy one shortest first.  All the
    repetitions of the program are over one character class. *)

Module Regex.

Inductive regex : Type :=
| Vacio                              (* the empty pattern *)
| Car (c : ascii)                    (* one literal character *)
| Clase (p : ascii -> bool)          (* [...], \d, . *)
| Frontera                           (* \b *)
| Cat (a b : regex)                  (* ab *)
| Alt (a b : regex)                  (* a|b *)
| Estrella (p : ascii -> bool)       (* [...]* *)
| Mas (p : ascii -> bool)            (* [...]+ *)
| Perezosa (p : ascii -> bool).      (* [...]*? *)

Declare Scope regex_scope.
Delimit Scope regex_scope with re.
Bind Scope regex_scope with regex.
Infix ">>" := Cat (at level 41, right associativity) : regex_scope.
Infix "<|>" := Alt (at level 51, right associativity) : regex_scope.

(** A literal word. *)
Fixpoint lit (s : string) : regex :=
  match s with
  | EmptyString => Vacio
  | String c r => Cat (Car c) (lit r)
  end.

(** [\w] just before or just after a position; outside the text there
    is no word character. *)
Definition palabra_en (c : option ascii) : bool :=
  match c with Some a => es_palabra a | None => false end.

(** [\b] between the character [prev] and the text [s] that follows. *)
Definition es_frontera (prev : option ascii) (s : list ascii) : bool :=
  xorb (palabra_en prev) (palabra_en (hd_error s)).

(** A continuation receives the last character consumed and the text
    still to be read, and answers with the text left after the whole
    match. *)
Definition cont : Type := option ascii -> list ascii -> option (list ascii).

Fixpoint codiciosa (p : ascii -> bool) (prev : option ascii) (s : list ascii)
    (k : cont) : option (list ascii) :=
  match s with
  | c :: s' =>
      if p c
      then match codiciosa p (Some c) s' k with
           | Some r => Some r
           | None => k prev s
           end
      else k prev s
  | [] => k prev s
  end.

Fixpoint perezosa (p : ascii -> bool) (prev : option ascii) (s : list ascii)
    (k : cont) : option (list ascii) :=
  match k prev s with
  | Some r => Some r
  | None =>
      match s with
      | c :: s' => if p c then perezosa p (Some c) s' k else None
      | [] => None
      end
  end.

Fixpoint coincide (r : regex) (prev : option ascii) (s : list ascii)
    (k : cont) : option (list ascii) :=
  match r with
  | Vacio => k prev s
  | Car c =>
      match s with
      | c' :: s' => if Ascii.eqb c c' then k (Some c') s' else None
      | [] => None
      end
  | Clase p =>
      match s with
      | c' :: s' => if p c' then k (Some c') s' else None
      | [] => None
      end
  | Frontera => if es_frontera prev s then k prev s else None
  | Cat a b => coincide a prev s (fun prev' s' => coincide b prev' s' k)
  | Alt a b =>
      match coincide a prev s k with
      | Some x => Some x
      | None => coincide b prev s k
      end
  | Estrella p => codiciosa p prev s k
  | Mas p =>
      match s with
      | c' :: s' => if p c' then codiciosa p (Some c') s' k else None
      | [] => None
      end
  | Perezosa p => perezosa p prev s k
  end.

(** [re.compile(patron).match(texto, pos)]: the end offset of the match
    that starts at [pos], if there is one.  The character before [pos]
    is visible to [\b]. *)
Definition re_match (r : regex) (texto : list ascii) (pos : nat) : option nat :=
  let prev := match pos with O => None | S q => nth_error texto q end in
  match coincide r prev (skipn pos texto) (fun _ resto => Some resto) with
  | Some resto => Some (length texto - length resto)
  | None => None
  end.

(** The last character read once [l] has been consumed after [prev]. *)
Definition ultimo (prev : option ascii) (l : list ascii) : option ascii :=
  fold_left (fun _ c => Some c) l prev.

(** Every match of [r] takes at least one character. *)
Fixpoint consume (r : regex) : bool :=
  match r with
  | Car _ | Clase _ | Mas _ => true
  | Vacio | Frontera | Estrella _ | Perezosa _ => false
  | Cat a b => consume a || consume b
  | Alt a b => consume a && consume b
  end.

End Regex.

Import Regex.

(* ------------------------------------------------------------------ *)
(** ** The scanner: [AnalizadorLR.analizador_lexico] *)

Module Lexico.

Local Open Scope regex_scope.

Definition comillas : ascii := "034"%char.

(** [.] without DOTALL: any character but the line feed. *)
Definition punto (c : ascii) : bool := negb (codigo c =? 10).

(** [[a-zA-Z_]] and [[a-zA-Z0-9_]]. *)
Definition inicio_id (c : ascii) : bool :=
  es_minuscula c || es_mayuscula c || es_guion_bajo c.
Definition resto_id (c : ascii) : bool :=
  es_minuscula c || es_mayuscula c || es_digito c || es_guion_bajo c.

(** [\bw\b] for a literal word [w]. *)
Definition palabra (w : string) : regex := Frontera >> lit w >> Frontera.

Definition re_identificador : regex :=
  Frontera >> Clase inicio_id >> Estrella resto_id >> Frontera.
Definition re_entero : regex := Frontera >> Mas es_digito >> Frontera.
Definition re_real : regex :=
  Frontera >> Mas es_digito >> Car "." >> Mas es_digito >> Frontera.

(** The dictionary [patrones], in insertion order, which is the order
    in which [patrones.items()] yields it. *)
Definition patrones : list (string * regex) :=
  [ ("(", Car "(");
    (")", Car ")");
    ("{", Car "{");
    ("}", Car "}");
    ("tipo", palabra "int" <|> palabra "float");
    ("identificador", re_identificador);
    ("entero", re_entero);
    ("real", re_real);
    ("cadena", Car comillas >> Perezosa punto >> Car comillas);
    ("opSuma", Car "+");
    ("opMul", Car "*");
    ("opRelac", lit "<=" <|> lit ">=" <|> Car "<" <|> Car ">");
    ("opIgualdad", lit "==" <|> lit "!=");
    ("opAnd", lit "&&");
    ("opOr", lit "||");
    ("opNot", Car "!");
    ("=", Car "=");
    (";", Car ";");
    (",", Car ",");
    ("if", palabra "if");
    ("else", palabra "else");
    ("while", palabra "while");
    ("return", palabra "return") ]%string.

(** The [for token_tipo, patron in patrones.items()] loop with its
    [break]: the first entry whose pattern matches at [posicion]. *)
Fixpoint buscar (ps : list (string * regex)) (texto : list ascii) (posicion : nat)
    : option (string * nat) :=
  match ps with
  | [] => None
  | (token_tipo, patron) :: ps' =>
      match re_match patron texto posicion with
      | Some fin => Some (token_tipo, fin)
      | None => buscar ps' texto posicion
      end
  end.

Arguments buscar : simpl never.

(** [f"ERROR({c})"]. *)
Definition token_error (c : ascii) : string :=
  ("ERROR(" ++ String c ")")%string.

(** The [while posicion < longitud_codigo] loop.  [nth_error] is [None]
    exactly when the loop condition is false.  [pasos] bounds the
    number of iterations; [None] means the bound was reached. *)
Fixpoint bucle (pasos : nat) (texto : list ascii) (posicion : nat)
    (tokens : list string) : option (list string) :=
  match nth_error texto posicion with
  | None => Some tokens
  | Some c =>
      match pasos with
      | O => None
      | S pasos' =>
          if es_espacio c
          then bucle pasos' texto (posicion + 1) tokens
          else match buscar patrones texto posicion with
               | Some (token_tipo, fin) =>
                   bucle pasos' texto fin (tokens ++ [token_tipo])
               | None =>
                   bucle pasos' texto (posicion + 1) (tokens ++ [token_error c])
               end
      end
  end.

(** [analizador_lexico(codigo_fuente)]; one iteration per character is
    enough ([analizador_lexico_total] below). *)
Definition analizador_lexico (codigo_fuente : string) : option (list string) :=
  let texto := caracteres codigo_fuente in
  bucle (length texto) texto 0 [].

(** *** Notions of the specification *)

(** Wherever [q] matches, [p] matches too. *)
Definition cubre (p q : regex) : Prop :=
  forall texto posicion fin,
    re_match q texto posicion = Some fin ->
    exists fin', re_match p texto posicion = Some fin'.

(** A word that [[a-zA-Z_][a-zA-Z0-9_]*] spells. *)
Definition es_identificador (w : string) : bool :=
  match caracteres w with
  | c :: r => inicio_id c && forallb resto_id r
  | [] => false
  end.

(** The names that come after a pattern that covers theirs. *)
Definition es_inalcanzable (token : string) : bool :=
  existsb (String.eqb token) ["if"; "else"; "while"; "return"; "real"]%string.

(** No entry of [patrones] matches at [posicion]. *)
Definition falla_en (texto : list ascii) (posicion : nat) (p : string * regex) : Prop :=
  re_match (snd p) texto posicion = None.

End Lexico.

Import Lexico.


(* ------------------------------------------------------------------ *)
(** ** The automaton: [Pila], [Arbol] and [AnalizadorLR] *)

Module LR.

(** What the stack holds: an [int] (a state) or an [Arbol] object with
    its [valor] and its [hijos].  [reducir] stores in [hijos] whatever
    it pops, so the children are values too. *)
#[warnings="-register-all"]
Inductive Valor : Type :=
| Entero (e : Z)
| Arbol (valor : string) (hijos : list Valor).

Inductive Excepcion : Type :=
| PilaVacia        (* Exception("Pila vacia") of Pila.pop / Pila.peek *)
| SinEstado        (* Exception of obtener_estado_actual *)
| KeyError         (* rule not in reglas, state not in the table index *)
| ValueError       (* int() of a text that is no integer, bad unpacking *)
| IndexError       (* pop(0) of an empty list *)
| OverflowError.   (* int() of an infinite number *)

Inductive Exc (A : Type) : Type :=
| Bien (a : A)
| Lanza (e : Excepcion).
Arguments Bien {A} a.
Arguments Lanza {A} e.

Definition ligar {A B : Type} (m : Exc A) (f : A -> Exc B) : Exc B :=
  match m with Bien a => f a | Lanza e => Lanza e end.

Notation "x <- m ;; k" := (ligar m (fun x => k))
  (at level 61, m at next level, right associativity).
Notation "' p <- m ;; k" := (ligar m (fun x => let p := x in k))
  (at level 61, p pattern, m at next level, right associativity).

(** *** Pila *)

(** The linked stack, its top first. *)
Definition Pila : Type := list Valor.

Definition push (valor : Valor) (p : Pila) : Pila := valor :: p.

Definition pop (p : Pila) : Exc (Valor * Pila) :=
  match p with
  | [] => Lanza PilaVacia
  | valor :: siguiente => Bien (valor, siguiente)
  end.

Definition peek (p : Pila) : Exc Valor :=
  match p with
  | [] => Lanza PilaVacia
  | valor :: _ => Bien valor
  end.

Definition esta_vacia (p : Pila) : bool :=
  match p with [] => true | _ => false end.

(** From the base to the top. *)
Definition mostrar (p : Pila) : list Valor := rev p.

(** *** The table and the rules *)

(** A cell of the DataFrame.  [read_csv] makes a numeric column of a
    column of numbers and blanks, and a column of [str] of any other:
    a cell is blank (NaN), a [str], or a number.  Of a number the
    program asks [str(x)] and [int(x)], and the cell is given by both:
    for the float 1.0, the text [1.0] and the integer 1; [int] of an
    infinite number raises [OverflowError] ([None]), and so does the
    cell say. *)
Inductive Celda : Type :=
| Nula
| Texto (texto : string)
| Numero (escrito : string) (entero : option Z).

(** [pd.notna(x)]. *)
Definition notna (x : Celda) : bool :=
  match x with Nula => false | _ => true end.

(** [str(x)] for a cell that is not NaN. *)
Definition str_celda (x : Celda) : string :=
  match x with
  | Nula => "nan"
  | Texto texto => texto
  | Numero escrito _ => escrito
  end.

(** [int(x)] for a cell that is not NaN. *)
Definition int_celda (x : Celda) : Exc Z :=
  match x with
  | Nula => Lanza ValueError
  | Texto texto =>
      match int_py texto with
      | Some e => Bien e
      | None => Lanza ValueError
      end
  | Numero _ (Some e) => Bien e
  | Numero _ None => Lanza OverflowError
  end.

(** The DataFrame.  [loc e c] is [None] when the label [e] is not in
    the index (pandas raises [KeyError]), and the cell otherwise. *)
Record Tabla : Type := {
  columns : list string;
  loc : Z -> string -> option Celda
}.

Definition en_columnas (t : Tabla) (c : string) : bool :=
  existsb (String.eqb c) (columns t).

(** The global dictionary [reglas]. *)
Definition reglas : list (Z * string) :=
  [ (0, "<Inicial> ::= <programa>");
    (1, "<programa> ::= <Definiciones>");
    (2, "<Definiciones> ::= \e");
    (3, "<Definiciones> ::= <Definicion> <Definiciones>");
    (4, "<Definicion> ::= <DefVar>");
    (5, "<Definicion> ::= <DefFunc>");
    (6, "<DefVar> ::= tipo identificador <ListaVar> ;");
    (7, "<ListaVar> ::= \e");
    (8, "<ListaVar> ::= , identificador <ListaVar>");
    (9, "<DefFunc> ::= tipo identificador ( <Parametros> ) <BloqFunc>");
    (10, "<Parametros> ::= \e");
    (11, "<Parametros> ::= tipo identificador <ListaParam>");
    (12, "<ListaParam> ::= \e");
    (13, "<ListaParam> ::= , tipo identificador <ListaParam>");
    (14, "<BloqFunc> ::= { <DefLocales> }");
    (15, "<DefLocales> ::= \e");
    (16, "<DefLocales> ::= <DefLocal> <DefLocales>");
    (17, "<DefLocal> ::= <DefVar>");
    (18, "<DefLocal> ::= <Sentencia>");
    (19, "<Sentencias> ::= \e");
    (20, "<Sentencias> ::= <Sentencia> <Sentencias>");
    (21, "<Sentencia> ::= identificador = <Expresion> ;");
    (22, "<Sentencia> ::= if ( <Expresion> ) <SentenciaBloque> <Otro>");
    (23, "<Sentencia> ::= while ( <Expresion> ) <Bloque>");
    (24, "<Sentencia> ::= return <ValorRegresa> ;");
    (25, "<Sentencia> ::= <LlamadaFunc> ;");
    (26, "<Otro> ::= \e");
    (27, "<Otro> ::= else <SentenciaBloque>");
    (28, "<Bloque> ::= { <Sentencias> }");
    (29, "<ValorRegresa> ::= \e");
    (30, "<ValorRegresa> ::= <Expresion>");
    (31, "<Argumentos> ::= \e");
    (32, "<Argumentos> ::= <Expresion> <ListaArgumentos>");
    (33, "<ListaArgumentos> ::= \e");
    (34, "<ListaArgumentos> ::= , <Expresion> <ListaArgumentos>");
    (35, "<Termino> ::= <LlamadaFunc>");
    (36, "<Termino> ::= identificador");
    (37, "<Termino> ::= entero");
    (38, "<Termino> ::= real");
    (39, "<Termino> ::= cadena");
    (40, "<LlamadaFunc> ::= identificador ( <Argumentos> )");
    (41, "<SentenciaBloque> ::= <Sentencia>");
    (42, "<SentenciaBloque> ::= <Bloque>");
    (43, "<Expresion> ::= ( <Expresion> )");
    (44, "<Expresion> ::= opSuma <Expresion>");
    (45, "<Expresion> ::= opNot <Expresion>");
    (46, "<Expresion> ::= <Expresion> opMul <Expresion>");
    (47, "<Expresion> ::= <Expresion> opSuma <Expresion>");
    (48, "<Expresion> ::= <Expresion> opRelac <Expresion>");
    (49, "<Expresion> ::= <Expresion> opIgualdad <Expresion>");
    (50, "<Expresion> ::= <Expresion> opAnd <Expresion>");
    (51, "<Expresion> ::= <Expresion> opOr <Expresion>");
    (52, "<Expresion> ::= <Termino>") ]%Z.

(** [reglas[numero_regla]]; [None] when the key is absent. *)
Definition obtener_regla (numero_regla : Z) : option string :=
  match find (fun r => Z.eqb (fst r) numero_regla) reglas with
  | Some r => Some (snd r)
  | None => None
  end.

(** The text of the empty production. *)
Definition cuerpo_vacio : string := "\e".

(** *** The analyser object *)

Record Analizador : Type := {
  pila : Pila;
  flujo_entrada : list string;
  salida_proceso : list (string * string * string);
  error_ocurrido : bool;
  arbol : option Valor
}.

(** [__init__], with [flujo_entrada] as [leer_codigo_fuente] leaves it. *)
Definition inicial (flujo : list string) : Analizador :=
  {| pila := push (Entero 0) [];
     flujo_entrada := flujo;
     salida_proceso := [];
     error_ocurrido := false;
     arbol := None |}.

(** The object just made by [__init__]. *)
Definition nuevo : Analizador := inicial [].

Definition con_flujo (a : Analizador) (flujo : list string) : Analizador :=
  {| pila := pila a;
     flujo_entrada := flujo;
     salida_proceso := salida_proceso a;
     error_ocurrido := error_ocurrido a;
     arbol := arbol a |}.

(** How [leer_codigo_fuente] ends. *)
Inductive Lectura : Type :=
| Leido (a : Analizador)   (* the method returns *)
| NoLeido.                 (* open() or read() raised *)

(** [leer_codigo_fuente(ruta_archivo)].  [archivo] is what [open] and
    [read] make of the path: the text of the file, or [None] when one
    of them raises ([OSError], [UnicodeDecodeError]); the exception
    then leaves the method with nothing assigned.  Of the object only
    [flujo_entrada] is assigned.  The result is [None] when the
    scanner is out of steps. *)
Definition leer_codigo_fuente (a : Analizador) (archivo : option string)
    : option Lectura :=
  match archivo with
  | None => Some NoLeido
  | Some codigo_fuente =>
      match analizador_lexico codigo_fuente with
      | Some tokens => Some (Leido (con_flujo a (tokens ++ ["$"%string])))
      | None => None
      end
  end.

Definition es_entero (v : Valor) : bool :=
  match v with Entero _ => true | Arbol _ _ => false end.

(** The first [int] found from the top of the stack. *)
Fixpoint primer_entero (p : Pila) : Exc Z :=
  match p with
  | Entero e :: _ => Bien e
  | Arbol _ _ :: r => primer_entero r
  | [] => Lanza SinEstado
  end.

Definition obtener_estado_actual (a : Analizador) : Exc Z :=
  primer_entero (pila a).

Definition obtener_accion (t : Tabla) (estado : Z) (token : string) : Exc string :=
  if en_columnas t token
  then match loc t estado token with
       | None => Lanza KeyError
       | Some accion =>
           if notna accion
           then Bien (strip (str_celda accion))
           else Bien "error"%string
       end
  else Bien "error"%string.

(** [None] stands for the answer ["error"]. *)
Definition obtener_goto (t : Tabla) (estado : Z) (no_terminal : string)
    : Exc (option Z) :=
  let simbolo := strip (strip_angulos no_terminal) in
  if en_columnas t simbolo
  then match loc t estado simbolo with
       | None => Lanza KeyError
       | Some goto =>
           if notna goto
           then e <- int_celda goto ;; Bien (Some e)
           else Bien None
       end
  else Bien None.

Definition str_valor (v : Valor) : string :=
  match v with
  | Entero e => str_int e
  | Arbol valor _ => valor
  end.

Definition obtener_pila_como_cadena (a : Analizador) : string :=
  join " " (map str_valor (mostrar (pila a))).

Definition entrada_como_cadena (a : Analizador) : string :=
  join " " (flujo_entrada a).

(** The f-string of [manejar_error]; the accented letter is U+00F3. *)
Definition mensaje_error (estado : Z) (token : string) : string :=
  ("Error: No hay acci" ++ String "243" "n para el estado " ++ str_int estado
   ++ " y el token '" ++ token ++ "'")%string.

Definition registrar (a : Analizador) (accion : string) : Analizador :=
  {| pila := pila a;
     flujo_entrada := flujo_entrada a;
     salida_proceso :=
       salida_proceso a
       ++ [(obtener_pila_como_cadena a, entrada_como_cadena a, accion)];
     error_ocurrido := error_ocurrido a;
     arbol := arbol a |}.

Definition manejar_error (a : Analizador) (estado : Z) (token : string) : Analizador :=
  let a' := registrar a (mensaje_error estado token) in
  {| pila := pila a';
     flujo_entrada := flujo_entrada a';
     salida_proceso := salida_proceso a';
     error_ocurrido := true;
     arbol := arbol a' |}.

Definition con_pila (a : Analizador) (p : Pila) : Analizador :=
  {| pila := p;
     flujo_entrada := flujo_entrada a;
     salida_proceso := salida_proceso a;
     error_ocurrido := error_ocurrido a;
     arbol := arbol a |}.

(** *** Shift *)

Definition desplazar (a : Analizador) (accion token : string) : Exc Analizador :=
  match int_py (desde_1 accion) with
  | None => Lanza ValueError
  | Some estado_siguiente =>
      let nodo_token := Arbol token [] in
      let p := push (Entero estado_siguiente) (push nodo_token (pila a)) in
      match flujo_entrada a with
      | [] => Lanza IndexError
      | _ :: resto =>
          Bien {| pila := p;
                  flujo_entrada := resto;
                  salida_proceso := salida_proceso a;
                  error_ocurrido := error_ocurrido a;
                  arbol := arbol a |}
      end
  end.

(** *** Reduce *)

(** The loop [for _ in range(n)]: pop a state, pop a symbol, and put
    the symbol in front of [hijos]. *)
Fixpoint desapilar (n : nat) (p : Pila) (hijos : list Valor)
    : Exc (list Valor * Pila) :=
  match n with
  | O => Bien (hijos, p)
  | S m =>
      '(_, p1) <- pop p ;;
      '(nodo_hijo, p2) <- pop p1 ;;
      desapilar m p2 (nodo_hijo :: hijos)
  end.

(** How one pass of the loop of [analizar] ends. *)
Inductive Resultado : Type :=
| Retorna (a : Analizador)     (* analizar returns *)
| Termina (a : Analizador)     (* exit(): SystemExit leaves the program *)
| Falla (e : Excepcion).       (* an exception leaves analizar *)

Inductive Paso : Type :=
| Sigue (a : Analizador)       (* back to the top of the loop *)
| Fin (r : Resultado).

Definition o_falla {A : Type} (m : Exc A) (k : A -> Paso) : Paso :=
  match m with Bien x => k x | Lanza e => Fin (Falla e) end.

Notation "x <~ m ;; k" := (o_falla m (fun x => k))
  (at level 61, m at next level, right associativity).
Notation "' p <~ m ;; k" := (o_falla m (fun x => let p := x in k))
  (at level 61, p pattern, m at next level, right associativity).

Definition es_none {A : Type} (o : option A) : bool :=
  match o with None => true | Some _ => false end.

(** [if self.arbol is None and cabecera == '<programa>': self.arbol =
    nodo_actual]. *)
Definition registrar_raiz (previo : option Valor) (cabecera : string) (nodo : Valor)
    : option Valor :=
  if es_none previo && String.eqb cabecera "<programa>" then Some nodo else previo.

(** The children of the new node and the stack left under them: no pop
    for the body [\e], one pass of the loop per word of any other body. *)
Definition recoger_hijos (cuerpo : string) (p : Pila) : Exc (list Valor * Pila) :=
  let tokens_cuerpo := split_blancos (strip cuerpo) in
  if String.eqb (strip cuerpo) cuerpo_vacio
  then Bien ([], p)
  else desapilar (length tokens_cuerpo) p [].

(** The part of [reducir] after the rule number is known not to be 0
    and the rule text has been split. *)
Definition reducir_regla (t : Tabla) (a : Analizador) (cabecera cuerpo : string)
    : Paso :=
  '(hijos, p1) <~ recoger_hijos cuerpo (pila a) ;;
  let nodo_actual := Arbol cabecera hijos in
  estado_anterior <~ primer_entero p1 ;;
  let a1 := con_pila a (push nodo_actual p1) in
  estado_siguiente <~ obtener_goto t estado_anterior cabecera ;;
  match estado_siguiente with
  | None => Sigue (manejar_error a1 estado_anterior cabecera)
  | Some e =>
      Sigue {| pila := push (Entero e) (pila a1);
               flujo_entrada := flujo_entrada a1;
               salida_proceso := salida_proceso a1;
               error_ocurrido := error_ocurrido a1;
               arbol := registrar_raiz (arbol a1) cabecera nodo_actual |}
  end.

Definition reducir (t : Tabla) (a : Analizador) (accion : string) : Paso :=
  match int_py (desde_1 accion) with
  | None => Fin (Falla ValueError)
  | Some numero_regla =>
      if Z.eqb numero_regla 0
      then Fin (Termina a)
      else match obtener_regla numero_regla with
           | None => Fin (Falla KeyError)
           | Some regla =>
               match split_sep " ::= " regla with
               | [cabecera; cuerpo] => reducir_regla t a cabecera cuerpo
               | _ => Fin (Falla ValueError)
               end
           end
  end.

(** *** The loop of [analizar] *)

(** [self.flujo_entrada[0] if self.flujo_entrada else '$']. *)
Definition token_actual (a : Analizador) : string :=
  match flujo_entrada a with
  | tok :: _ => tok
  | [] => "$"%string
  end.

(** The body of [while True] once [error_ocurrido] was found false. *)
Definition paso (t : Tabla) (a : Analizador) : Paso :=
  estado_actual <~ obtener_estado_actual a ;;
  accion <~ obtener_accion t estado_actual (token_actual a) ;;
  let a1 := registrar a accion in
  if startswith "d" accion then
    a2 <~ desplazar a1 accion (token_actual a) ;; Sigue a2
  else if startswith "r" accion then
    reducir t a1 accion
  else if String.eqb accion "accept" then
    Fin (Retorna a1)
  else
    Fin (Retorna (manejar_error a1 estado_actual (token_actual a))).

(** [analizar], run for at most [vueltas] passes of its loop; [None]
    when that many passes did not end it.  Writing the report files
    ([generar_salida]) changes nothing of the object. *)
Fixpoint analizar (vueltas : nat) (t : Tabla) (a : Analizador) : option Resultado :=
  match vueltas with
  | O => None
  | S v =>
      if error_ocurrido a
      then Some (Retorna a)
      else match paso t a with
           | Sigue a' => analizar v t a'
           | Fin r => Some r
           end
  end.

(** A table given by its rows: the cells of a row that are not listed
    are blank. *)
Definition tabla_de (cols : list string) (filas : list (Z * list (string * Celda)))
    : Tabla :=
  {| columns := cols;
     loc := fun e c =>
       match find (fun f => Z.eqb (fst f) e) filas with
       | None => None
       | Some f =>
           Some (match find (fun x => String.eqb (fst x) c) (snd f) with
                 | Some x => snd x
                 | None => Nula
                 end)
       end |}.

(** A state in a goto column that has blanks: the float that
    [read_csv] makes of it. *)
Definition ir_a (e : Z) : Celda :=
  Numero (str_int e ++ ".0") (Some e).

(** [n] passes of the loop that all come back to its top. *)
Fixpoint iterar (n : nat) (t : Tabla) (a : Analizador) : option Analizador :=
  match n with
  | O => Some a
  | S m =>
      if error_ocurrido a
      then None
      else match paso t a with
           | Sigue a' => iterar m t a'
           | Fin _ => None
           end
  end.

(** The action that the next pass will read from the table. *)
Definition accion_de (t : Tabla) (a : Analizador) : Exc string :=
  estado_actual <- obtener_estado_actual a ;;
  obtener_accion t estado_actual (token_actual a).

(** *** Notions of the specification *)

(** The stack alternates state, symbol, state, ..., and both its top
    and its base are states. *)
Fixpoint alterna (p : Pila) : bool :=
  match p with
  | [Entero _] => true
  | Entero _ :: Arbol _ _ :: r => alterna r
  | _ => false
  end.

(** The leaves of a tree, left to right: its nodes without children. *)
Fixpoint hojas (v : Valor) : list string :=
  match v with
  | Entero _ => []
  | Arbol valor [] => [valor]
  | Arbol _ hijos => flat_map hojas hijos
  end.

(** A label in the bracket notation of the nonterminals. *)
Definition es_no_terminal (valor : string) : bool := startswith "<" valor.

(** The leaves that carry a token: the nodes without children whose
    label is not a nonterminal. *)
Fixpoint hojas_terminales (v : Valor) : list string :=
  match v with
  | Entero _ => []
  | Arbol valor [] => if es_no_terminal valor then [] else [valor]
  | Arbol _ hijos => flat_map hojas_terminales hijos
  end.

(** The length of a right-hand side, 0 for the empty production. *)
Definition longitud_cuerpo (cuerpo : string) : nat :=
  if String.eqb (strip cuerpo) cuerpo_vacio
  then 0
  else length (split_blancos (strip cuerpo)).

(** The stack segment made of (state, symbol) pairs, the topmost pair
    first. *)
Definition aplanar (pares : list (Valor * Valor)) : Pila :=
  flat_map (fun par => [fst par; snd par]) pares.

(** The ways in which one pass of the loop comes back to its top:
    a shift, a reduction with its goto, and a reduction whose goto is
    missing.  [paso_transicion] shows that these are all of them. *)
Inductive transicion (t : Tabla) (a : Analizador) : Analizador -> Prop :=
| tr_desplaza (accion : string) (e : Z) (tok : string) (resto : list string) :
    accion_de t a = Bien accion ->
    startswith "d" accion = true ->
    int_py (desde_1 accion) = Some e ->
    flujo_entrada a = tok :: resto ->
    transicion t a
      {| pila := Entero e :: Arbol tok [] :: pila a;
         flujo_entrada := resto;
         salida_proceso := salida_proceso (registrar a accion);
         error_ocurrido := error_ocurrido a;
         arbol := arbol a |}
| tr_reduce (accion : string) (numero : Z) (regla cabecera cuerpo : string)
    (hijos : list Valor) (p1 : Pila) (estado_anterior e : Z) :
    accion_de t a = Bien accion ->
    startswith "d" accion = false ->
    startswith "r" accion = true ->
    int_py (desde_1 accion) = Some numero ->
    numero <> 0%Z ->
    obtener_regla numero = Some regla ->
    split_sep " ::= " regla = [cabecera; cuerpo] ->
    recoger_hijos cuerpo (pila a) = Bien (hijos, p1) ->
    primer_entero p1 = Bien estado_anterior ->
    obtener_goto t estado_anterior cabecera = Bien (Some e) ->
    transicion t a
      {| pila := Entero e :: Arbol cabecera hijos :: p1;
         flujo_entrada := flujo_entrada a;
         salida_proceso := salida_proceso (registrar a accion);
         error_ocurrido := error_ocurrido a;
         arbol := registrar_raiz (arbol a) cabecera (Arbol cabecera hijos) |}
| tr_sin_goto (accion : string) (numero : Z) (regla cabecera cuerpo : string)
    (hijos : list Valor) (p1 : Pila) (estado_anterior : Z) :
    accion_de t a = Bien accion ->
    startswith "d" accion = false ->
    startswith "r" accion = true ->
    int_py (desde_1 accion) = Some numero ->
    numero <> 0%Z ->
    obtener_regla numero = Some regla ->
    split_sep " ::= " regla = [cabecera; cuerpo] ->
    recoger_hijos cuerpo (pila a) = Bien (hijos, p1) ->
    primer_entero p1 = Bien estado_anterior ->
    obtener_goto t estado_anterior cabecera = Bien None ->
    transicion t a
      (manejar_error
         (con_pila (registrar a accion) (Arbol cabecera hijos :: p1))
         estado_anterior cabecera).

(** The ways in which one pass of the loop ends the run without an
    exception: the action [accept], no action, and the reduction by
    rule 0. *)
Inductive desenlace (t : Tabla) (a : Analizador) : Resultado -> Prop :=
| de_acepta :
    accion_de t a = Bien "accept"%string ->
    desenlace t a (Retorna (registrar a "accept"))
| de_sin_accion (estado : Z) (accion : string) :
    obtener_estado_actual a = Bien estado ->
    accion_de t a = Bien accion ->
    startswith "d" accion = false ->
    startswith "r" accion = false ->
    accion <> "accept"%string ->
    desenlace t a
      (Retorna (manejar_error (registrar a accion) estado (token_actual a)))
| de_regla_0 (accion : string) :
    accion_de t a = Bien accion ->
    startswith "d" accion = false ->
    startswith "r" accion = true ->
    int_py (desde_1 accion) = Some 0%Z ->
    desenlace t a (Termina (registrar a accion)).

(** A pair popped from a well-formed stack: a state above a tree. *)
Definition par_bien_formado (par : Valor * Valor) : Prop :=
  es_entero (fst par) = true /\ es_entero (snd par) = false.

(** The stack left by a reduction whose goto is missing: the new node
    on top of a stack that alternates. *)
Definition cima_es_nodo (p : Pila) : bool :=
  match p with
  | Arbol _ _ :: r => alterna r
  | _ => false
  end.

(** The shape of the stack when a pass comes back to the top of the
    loop: it alternates, or an error was met and the top is a node. *)
Definition forma (a : Analizador) : Prop :=
  (error_ocurrido a = false /\ alterna (pila a) = true)
  \/ (error_ocurrido a = true /\ cima_es_nodo (pila a) = true).


(** The tokens shifted so far, read from the trees of the stack from
    its base to its top. *)
Definition hojas_de_la_pila (p : Pila) : list string :=
  flat_map hojas_terminales (rev p).

(** The tokens under the trees of the stack followed by the tokens
    still to be read are the input. *)
Definition conserva (entrada : list string) (a : Analizador) : Prop :=
  forma a /\ hojas_de_la_pila (pila a) ++ flujo_entrada a = entrada.

(** The object with which a run ends well: [analizar] returns with no
    error met, or the reduction by rule 0 ends the program. *)
Definition exito (r : Resultado) : option Analizador :=
  match r with
  | Retorna a => if error_ocurrido a then None else Some a
  | Termina a => Some a
  | Falla _ => None
  end.

Definition ultima_entrada (a : Analizador) : option (string * string * string) :=
  last (map Some (salida_proceso a)) None.

End LR.

Import LR.

(* ------------------------------------------------------------------ *)
(** ** Tables used in the examples

    The table file of the program is not part of the sources; these
    are fragments of an LR table for the grammar of [reglas], with
    state numbers of their own. *)

Module Ejemplos.

Local Open Scope string_scope.
Local Open Scope Z_scope.

Definition columnas_definiciones : list string :=
  ["tipo"; "identificador"; ";"; "("; ")"; "{"; "}"; "$";
   "programa"; "Definiciones"; "Definicion"; "DefVar"; "ListaVar";
   "DefFunc"; "Parametros"; "BloqFunc"; "DefLocales"].

(** Enough of the automaton to parse a list of definitions of the two
    forms [tipo identificador ;] and [tipo identificador ( ) { }]. *)
Definition tabla_definiciones : Tabla := tabla_de columnas_definiciones
  [ (0, [("tipo", Texto "d5"); ("$", Texto "r2"); ("programa", ir_a 1);
         ("Definiciones", ir_a 2); ("Definicion", ir_a 3);
         ("DefVar", ir_a 4); ("DefFunc", ir_a 17)]);
    (1, [("$", Texto "accept")]);
    (2, [("$", Texto "r1")]);
    (3, [("tipo", Texto "d5"); ("$", Texto "r2"); ("Definiciones", ir_a 6);
         ("Definicion", ir_a 3); ("DefVar", ir_a 4); ("DefFunc", ir_a 17)]);
    (4, [("tipo", Texto "r4"); ("$", Texto "r4")]);
    (5, [("identificador", Texto "d7")]);
    (6, [("$", Texto "r3")]);
    (7, [(";", Texto "r7"); ("(", Texto "d10"); ("ListaVar", ir_a 8)]);
    (8, [(";", Texto "d9")]);
    (9, [("tipo", Texto "r6"); ("$", Texto "r6")]);
    (10, [(")", Texto "r10"); ("Parametros", ir_a 11)]);
    (11, [(")", Texto "d12")]);
    (12, [("{", Texto "d13"); ("BloqFunc", ir_a 14)]);
    (13, [("}", Texto "r15"); ("DefLocales", ir_a 15)]);
    (14, [("tipo", Texto "r9"); ("$", Texto "r9")]);
    (15, [("}", Texto "d16")]);
    (16, [("tipo", Texto "r14"); ("$", Texto "r14")]);
    (17, [("tipo", Texto "r5"); ("$", Texto "r5")]) ].

(** The same automaton with the reduction by rule 0 in the state that
    follows [<programa>]. *)
Definition tabla_regla_0 : Tabla := tabla_de columnas_definiciones
  [ (0, [("tipo", Texto "d5"); ("$", Texto "r2"); ("programa", ir_a 1);
         ("Definiciones", ir_a 2); ("Definicion", ir_a 3);
         ("DefVar", ir_a 4)]);
    (1, [("$", Texto "r0")]);
    (2, [("$", Texto "r1")]) ].

(** A table whose row 0 reduces by rule 2 and has no goto for
    [<Definiciones>]. *)
Definition tabla_sin_goto : Tabla := tabla_de ["$"; "Definiciones"]
  [ (0, [("$", Texto "r2")]) ].

(** The object just before the reduction by rule 6 of the text
    [tipo identificador ;], and just after it. *)
Definition antes_de_r6 : Analizador :=
  {| pila := [Entero 9; Arbol ";" []; Entero 8; Arbol "<ListaVar>" [];
              Entero 7; Arbol "identificador" []; Entero 5; Arbol "tipo" [];
              Entero 0];
     flujo_entrada := ["$"];
     salida_proceso := [];
     error_ocurrido := false;
     arbol := None |}.

Definition despues_de_r6 : Analizador :=
  {| pila := [Entero 4;
              Arbol "<DefVar>"
                [Arbol "tipo" []; Arbol "identificador" [];
                 Arbol "<ListaVar>" []; Arbol ";" []];
              Entero 0];
     flujo_entrada := ["$"];
     salida_proceso := [];
     error_ocurrido := false;
     arbol := None |}.

End Ejemplos.

Import Ejemplos.

(* ------------------------------------------------------------------ *)
(** ** The report files: [generar_salida] and [generar_salida_arbol] *)

Module Informe.

Local Open Scope string_scope.

Definition salto : string := String "010" "".

(** [s.ljust(n)]: blanks are added on the right up to [n] characters;
    a longer text is left as it is. *)
Definition ljust (n : nat) (s : string) : string :=
  s ++ cadena (repeat " "%char (n - String.length s)).

(** One line of [salida.txt]. *)
Definition linea_salida (paso : string * string * string) : string :=
  let '(pila, entrada, accion) := paso in
  ljust 100 pila ++ ljust 40 entrada ++ accion ++ salto.

(** What [generar_salida] writes to [salida.txt]. *)
Definition texto_salida (a : Analizador) : string :=
  ljust 100 "Pila" ++ ljust 40 "Entrada" ++ "Salida" ++ salto
  ++ String.concat "" (map linea_salida (salida_proceso a)).

(** ['  ' * nivel]. *)
Fixpoint sangria (nivel : nat) : string :=
  match nivel with
  | O => ""
  | S n => "  " ++ sangria n
  end.

(** How a call of [generar_salida_arbol] ends. *)
Inductive Volcado : Type :=
| Escrito (texto : string)   (* the method returns the text *)
| AttributeError             (* [valor] or [hijos] of an [int] *)
| RecursionError.            (* more nested calls than the interpreter allows *)

(** The loop over [nodo.hijos], given what the call for a child gives:
    the first child whose call raises ends it. *)
Fixpoint por_hijo (llamada : Valor -> Volcado) (hijos : list Valor) (salida : string)
    : Volcado :=
  match hijos with
  | [] => Escrito salida
  | hijo :: r =>
      match llamada hijo with
      | Escrito texto => por_hijo llamada r (salida ++ texto)
      | error => error
      end
  end.

(** [generar_salida_arbol(nodo, nivel)].  The method calls itself once
    per level of the tree, and the interpreter bounds the calls under
    way: [marcos] is the number of nested calls that it still allows
    when this one is made (the recursion limit less the calls under
    way by then). *)
Fixpoint generar_salida_arbol (marcos : nat) (nodo : Valor) (nivel : nat) : Volcado :=
  match marcos with
  | O => RecursionError
  | S m =>
      match nodo with
      | Entero _ => AttributeError
      | Arbol valor hijos =>
          por_hijo (fun hijo => generar_salida_arbol m hijo (nivel + 1))
            hijos (sangria nivel ++ valor ++ salto)
      end
  end.

(** What [generar_salida] writes to [arbol_derivacion.txt]: nothing
    ([None]) when no root was recorded. *)
Definition texto_arbol (marcos : nat) (a : Analizador) : option Volcado :=
  match arbol a with
  | None => None
  | Some nodo => Some (generar_salida_arbol marcos nodo 0)
  end.

(** *** Notions used to state the properties *)

(** The nodes of a tree in pre-order, each with its depth. *)
Fixpoint preorden (nodo : Valor) (nivel : nat) : list (nat * string) :=
  match nodo with
  | Entero _ => []
  | Arbol valor hijos =>
      (nivel, valor) :: flat_map (fun hijo => preorden hijo (nivel + 1)) hijos
  end.

Definition linea_arbol (n : nat * string) : string :=
  sangria (fst n) ++ snd n ++ salto.

(** The levels of a tree: the nested calls that its dump needs. *)
Fixpoint profundidad (nodo : Valor) : nat :=
  match nodo with
  | Entero _ => 1
  | Arbol _ hijos => S (list_max (map profundidad hijos))
  end.

(** A tree all of whose nodes are [Arbol] objects. *)
Fixpoint es_arbol (v : Valor) : bool :=
  match v with
  | Entero _ => false
  | Arbol _ hijos => forallb es_arbol hijos
  end.

(** A stack value as the driver makes them: a state or a tree. *)
Definition valor_sano (v : Valor) : bool :=
  match v with
  | Entero _ => true
  | Arbol _ _ => es_arbol v
  end.

End Informe.

Import Informe.

(* ------------------------------------------------------------------ *)
(** ** The symbol file: [cargar_tokens] *)

Module Simbolos.

Local Open Scope string_scope.

Definition tabulador : string := String "009" "".

(** ['\t' in linea]. *)
Definition tiene_tabulador (linea : string) : bool :=
  existsb (Ascii.eqb "009"%char) (caracteres linea).

(** A [dict] with [str] keys, in insertion order. *)
Definition Dict : Type := list (string * string).

(** [d[k] = v]: a key that is present keeps its place. *)
Fixpoint asignar (d : Dict) (k v : string) : Dict :=
  match d with
  | [] => [(k, v)]
  | (k', v') :: r =>
      if String.eqb k' k then (k', v) :: r else (k', v') :: asignar r k v
  end.

(** [d.get(k)]. *)
Fixpoint consultar (d : Dict) (k : string) : option string :=
  match d with
  | [] => None
  | (k', v') :: r => if String.eqb k' k then Some v' else consultar r k
  end.

(** The loop of [cargar_tokens] over the lines that the file yields,
    each with its line end. *)
Fixpoint cargar_lineas (lineas : list string) (simbolos : Dict) : Exc Dict :=
  match lineas with
  | [] => Bien simbolos
  | linea :: resto =>
      if tiene_tabulador linea
      then match split_sep tabulador (strip linea) with
           | [token; valor] => cargar_lineas resto (asignar simbolos valor token)
           | _ => Lanza ValueError
           end
      else cargar_lineas resto simbolos
  end.

Definition cargar_tokens (lineas : list string) : Exc Dict :=
  cargar_lineas lineas [].

End Simbolos.

Import Simbolos.

(* ------------------------------------------------------------------ *)
(** ** More tables for the examples *)

Module Tablas.

Local Open Scope string_scope.
Local Open Scope Z_scope.


(** Every state shifts the end marker. *)
Definition tabla_desplaza_fin : Tabla := tabla_de ["$"]
  [ (0, [("$", Texto "d1")]); (1, [("$", Texto "d1")]) ].

(** A cell that starts like a reduction and has no rule number. *)
Definition tabla_mal_formada : Tabla := tabla_de ["$"]
  [ (0, [("$", Texto "reduce")]) ].

End Tablas.

Import Tablas.

(* ------------------------------------------------------------------ *)
(** ** Further notions used to state properties *)

Module Nociones.

(** No match of [r] takes the character [c]. *)
Fixpoint evita (c : ascii) (r : regex) : bool :=
  match r with
  | Vacio | Frontera => true
  | Car c' => negb (Ascii.eqb c' c)
  | Clase p | Estrella p | Mas p | Perezosa p => negb (p c)
  | Cat a b | Alt a b => evita c a && evita c b
  end.

(** The entries of a trace whose action is a shift. *)
Definition desplazamientos (traza : list (string * string * string)) : nat :=
  length (filter (fun e => startswith "d" (snd e)) traza).

(** The rule numbers of [reglas]. *)
Definition regla_definida (numero : Z) : Prop := (0 <= numero <= 52)%Z.

(** What a run keeps of the object it starts from: the input is only
    taken from its front, one token per shift, and the trace only
    grows. *)
Definition avance (a0 a : Analizador) : Prop :=
  exists consumidos nuevas,
    flujo_entrada a0 = consumidos ++ flujo_entrada a
    /\ salida_proceso a = salida_proceso a0 ++ nuevas
    /\ length consumidos = desplazamientos nuevas.

(** The tree recorded: it is kept once recorded, and it is recorded
    only as a node [<programa>]. *)
Definition raiz_fija (a0 a : Analizador) : Prop :=
  (forall raiz, arbol a0 = Some raiz -> arbol a = Some raiz)
  /\ (forall raiz,
        arbol a = Some raiz ->
        arbol a0 = Some raiz \/ exists hijos, raiz = Arbol "<programa>" hijos).

(** The pass from [b] to [b'] is a reduction by a rule of head
    [<programa>] whose goto exists, and [raiz] is the node that it
    leaves on the stack of [b'], under the goto state. *)
Definition reduce_a_programa (t : Tabla) (b b' : Analizador) (raiz : Valor) : Prop :=
  exists accion numero regla cuerpo hijos p1 estado_anterior e,
    accion_de t b = Bien accion
    /\ startswith "d" accion = false
    /\ startswith "r" accion = true
    /\ int_py (desde_1 accion) = Some numero
    /\ numero <> 0%Z
    /\ obtener_regla numero = Some regla
    /\ split_sep " ::= " regla = ["<programa>"%string; cuerpo]
    /\ recoger_hijos cuerpo (pila b) = Bien (hijos, p1)
    /\ primer_entero p1 = Bien estado_anterior
    /\ obtener_goto t estado_anterior "<programa>" = Bien (Some e)
    /\ raiz = Arbol "<programa>" hijos
    /\ pila b' = Entero e :: raiz :: p1.

(** Pass number [k] of the run from [a0], the first pass being number
    0, is a reduction to [<programa>] with a goto that pushes [raiz],
    and no pass before it is one. *)
Definition primera_reduccion_a_programa (t : Tabla) (a0 : Analizador) (k : nat)
    (raiz : Valor) : Prop :=
  exists b b',
    iterar k t a0 = Some b
    /\ iterar (S k) t a0 = Some b'
    /\ reduce_a_programa t b b' raiz
    /\ forall j c c' x,
         j < k ->
         iterar j t a0 = Some c ->
         iterar (S j) t a0 = Some c' ->
         ~ reduce_a_programa t c c' x.

(** The stack holds states and trees of [Arbol] objects, and so is the
    tree recorded. *)
Definition sana (a : Analizador) : Prop :=
  forma a
  /\ Forall (fun v => valor_sano v = true) (pila a)
  /\ forall raiz, arbol a = Some raiz -> es_arbol raiz = true.

(** Induction on a tree with the hypothesis for every child. *)
Fixpoint Valor_ind_hijos (P : Valor -> Prop)
    (HE : forall e, P (Entero e))
    (HA : forall valor hijos, Forall P hijos -> P (Arbol valor hijos))
    (v : Valor) : P v :=
  match v with
  | Entero e => HE e
  | Arbol valor hijos =>
      HA valor hijos
        ((fix todos (l : list Valor) : Forall P l :=
            match l with
            | [] => Forall_nil P
            | h :: r => Forall_cons h (Valor_ind_hijos P HE HA h) (todos r)
            end) hijos)
  end.



End Nociones.

Import Nociones.

(* ================================================================== *)
(** * Properties *)

(** ** Matching *)

Section Coincidencias.

Lemma codiciosa_inv (p : ascii -> bool) (s : list ascii) :
  forall prev k x,
    codiciosa p prev s k = Some x ->
    exists prev' s', k prev' s' = Some x /\ length s' <= length s.
Proof.
  induction s as [|c s IH]; intros prev k x H; simpl in H.
  - exists prev, []. auto.
  - destruct (p c).
    + destruct (codiciosa p (Some c) s k) eqn:E.
      * inversion H; subst. apply IH in E as (q & s' & Hk & Hl).
        exists q, s'. split; [assumption | simpl; lia].
      * exists prev, (c :: s). auto.
    + exists prev, (c :: s). auto.
Qed.

Lemma perezosa_inv (p : ascii -> bool) (s : list ascii) :
  forall prev k x,
    perezosa p prev s k = Some x ->
    exists prev' s', k prev' s' = Some x /\ length s' <= length s.
Proof.
  induction s as [|c s IH]; intros prev k x H; simpl in H.
  - destruct (k prev []) eqn:E; [|discriminate].
    inversion H; subst. exists prev, []. auto.
  - destruct (k prev (c :: s)) eqn:E.
    + inversion H; subst. exists prev, (c :: s). auto.
    + destruct (p c); [|discriminate].
      apply IH in H as (q & s' & Hk & Hl).
      exists q, s'. split; [assumption | simpl; lia].
Qed.

(** A match hands to its continuation a suffix of the text, a strictly
    shorter one when the pattern cannot match the empty word. *)
Lemma coincide_inv (r : regex) :
  forall prev s k x,
    coincide r prev s k = Some x ->
    exists prev' s',
      k prev' s' = Some x /\ length s' <= length s
      /\ (consume r = true -> length s' < length s).
Proof.
  induction r as [ |c|p| |a IHa b IHb|a IHa b IHb|p|p|p];
    intros prev s k x H; simpl in H.
  - exists prev, s. repeat split; auto; discriminate.
  - destruct s as [|c' s']; [discriminate|].
    destruct (Ascii.eqb c c'); [|discriminate].
    exists (Some c'), s'. simpl. repeat split; auto; lia.
  - destruct s as [|c' s']; [discriminate|].
    destruct (p c'); [|discriminate].
    exists (Some c'), s'. simpl. repeat split; auto; lia.
  - destruct (es_frontera prev s); [|discriminate].
    exists prev, s. repeat split; auto; discriminate.
  - apply IHa in H as (p1 & s1 & H1 & L1 & C1).
    apply IHb in H1 as (p2 & s2 & H2 & L2 & C2).
    exists p2, s2. repeat split; [assumption | lia |].
    simpl. intros Hc. apply orb_true_iff in Hc as [Hc|Hc].
    + specialize (C1 Hc). lia.
    + specialize (C2 Hc). lia.
  - destruct (coincide a prev s k) eqn:E.
    + inversion H; subst. apply IHa in E as (p1 & s1 & H1 & L1 & C1).
      exists p1, s1. repeat split; auto.
      simpl. intros Hc. apply andb_true_iff in Hc as [Hc _]. auto.
    + apply IHb in H as (p1 & s1 & H1 & L1 & C1).
      exists p1, s1. repeat split; auto.
      simpl. intros Hc. apply andb_true_iff in Hc as [_ Hc]. auto.
  - apply codiciosa_inv in H as (q & s' & Hk & Hl).
    exists q, s'. repeat split; auto; discriminate.
  - destruct s as [|c' s']; [discriminate|].
    destruct (p c'); [|discriminate].
    apply codiciosa_inv in H as (q & s'' & Hk & Hl).
    exists q, s''. simpl. repeat split; auto; lia.
  - apply perezosa_inv in H as (q & s' & Hk & Hl).
    exists q, s'. repeat split; auto; discriminate.
Qed.

(** A match of a pattern that takes at least one character ends
    strictly after the offset where it starts, and inside the text. *)
Lemma re_match_avanza (r : regex) (texto : list ascii) (pos fin : nat) :
  consume r = true ->
  re_match r texto pos = Some fin ->
  pos < fin <= length texto.
Proof.
  intros Hc H. unfold re_match in H.
  destruct (coincide r _ (skipn pos texto) _) as [resto|] eqn:E; [|discriminate].
  inversion H; subst; clear H.
  apply coincide_inv in E as (q & s' & Hk & Hl & Hs).
  inversion Hk; subst. specialize (Hs Hc).
  rewrite length_skipn in *. lia.
Qed.

End Coincidencias.

(** ** The scanner *)

Section Escaner.

Lemma patrones_consumen : Forall (fun p => consume (snd p) = true) patrones.
Proof. unfold patrones. repeat constructor. Qed.

(** What [buscar] finds is an entry of the list that matches and that
    no earlier entry matches. *)
Lemma buscar_descompone (ps : list (string * regex)) (texto : list ascii)
    (posicion : nat) (tipo : string) (fin : nat) :
  buscar ps texto posicion = Some (tipo, fin) ->
  exists antes patron despues,
    ps = antes ++ (tipo, patron) :: despues
    /\ Forall (falla_en texto posicion) antes
    /\ re_match patron texto posicion = Some fin.
Proof.
  induction ps as [|[n r] ps IH]; unfold buscar; fold buscar; intros H;
    [discriminate|].
  destruct (re_match r texto posicion) as [f|] eqn:E.
  - inversion H; subst. exists [], r, ps. auto.
  - apply IH in H as (antes & patron & despues & -> & Hf & Hm).
    exists ((n, r) :: antes), patron, despues.
    repeat split; auto.
Qed.

Lemma buscar_primero (antes despues : list (string * regex)) (tipo : string)
    (patron : regex) (texto : list ascii) (posicion fin : nat) :
  Forall (falla_en texto posicion) antes ->
  re_match patron texto posicion = Some fin ->
  buscar (antes ++ (tipo, patron) :: despues) texto posicion = Some (tipo, fin).
Proof.
  intros Hf Hm.
  induction Hf as [|[n r] antes Hr _ IH]; simpl app; unfold buscar; fold buscar.
  - rewrite Hm. reflexivity.
  - unfold falla_en in Hr. simpl in Hr. rewrite Hr. exact IH.
Qed.

Lemma buscar_ninguno (ps : list (string * regex)) (texto : list ascii)
    (posicion : nat) :
  Forall (falla_en texto posicion) ps -> buscar ps texto posicion = None.
Proof.
  induction 1 as [|[n r] ps Hr _ IH]; unfold buscar; fold buscar; [reflexivity|].
  unfold falla_en in Hr. simpl in Hr. rewrite Hr. exact IH.
Qed.

Lemma buscar_avanza (texto : list ascii) (posicion : nat) (tipo : string) (fin : nat) :
  buscar patrones texto posicion = Some (tipo, fin) ->
  posicion < fin <= length texto.
Proof.
  intros H. apply buscar_descompone in H as (antes & patron & despues & E & _ & Hm).
  apply (re_match_avanza patron); [|assumption].
  pose proof patrones_consumen as Hc. rewrite E in Hc.
  apply Forall_app in Hc as [_ Hc]. inversion Hc; subst. assumption.
Qed.

(** With one pass allowed per character still to be read the loop ends,
    and it adds at most one token per character. *)
Lemma bucle_total (pasos : nat) :
  forall texto posicion tokens,
    length texto - posicion <= pasos ->
    exists nuevos,
      bucle pasos texto posicion tokens = Some (tokens ++ nuevos)
      /\ length nuevos <= length texto - posicion.
Proof.
  induction pasos as [|pasos IH]; intros texto posicion tokens Hp; simpl.
  - destruct (nth_error texto posicion) eqn:E.
    + assert (posicion < length texto) by (apply nth_error_Some; congruence). lia.
    + exists []. rewrite app_nil_r. split; [reflexivity | simpl; lia].
  - destruct (nth_error texto posicion) as [c|] eqn:E.
    2:{ exists []. rewrite app_nil_r. split; [reflexivity | simpl; lia]. }
    assert (posicion < length texto) by (apply nth_error_Some; congruence).
    destruct (es_espacio c).
    + destruct (IH texto (posicion + 1) tokens) as (n & Hn & Hl); [lia|].
      exists n. split; [assumption | lia].
    + destruct (buscar patrones texto posicion) as [[tipo fin]|] eqn:B.
      * apply buscar_avanza in B.
        destruct (IH texto fin (tokens ++ [tipo])) as (n & Hn & Hl); [lia|].
        exists (tipo :: n). rewrite <- app_assoc in Hn.
        split; [assumption | simpl; lia].
      * destruct (IH texto (posicion + 1) (tokens ++ [token_error c]))
          as (n & Hn & Hl); [lia|].
        exists (token_error c :: n). rewrite <- app_assoc in Hn.
        split; [assumption | simpl; lia].
Qed.

(** More passes allowed do not change a result. *)
Lemma bucle_mas_pasos (pasos : nat) :
  forall texto posicion tokens r pasos',
    bucle pasos texto posicion tokens = Some r ->
    pasos <= pasos' ->
    bucle pasos' texto posicion tokens = Some r.
Proof.
  induction pasos as [|pasos IH]; intros texto posicion tokens r pasos' H Hle.
  - simpl in H. destruct (nth_error texto posicion) eqn:E; [discriminate|].
    destruct pasos'; simpl; rewrite E; assumption.
  - destruct pasos' as [|pasos']; [lia|].
    simpl in *. destruct (nth_error texto posicion) as [c|]; [|assumption].
    destruct (es_espacio c); [apply IH; [assumption | lia]|].
    destruct (buscar patrones texto posicion) as [[tipo fin]|];
      (apply IH; [assumption | lia]).
Qed.

Lemma length_caracteres (s : string) : length (caracteres s) = String.length s.
Proof. induction s; simpl; [reflexivity | f_equal; assumption]. Qed.

(** The tokens already found are kept in front of those still to come. *)
Lemma bucle_acumula (texto : list ascii) (previos : list string) :
  forall pasos pos tokens,
    bucle pasos texto pos (previos ++ tokens)
    = option_map (app previos) (bucle pasos texto pos tokens).
Proof.
  induction pasos as [|pasos IH]; intros pos tokens; simpl;
    destruct (nth_error texto pos) as [c|]; try reflexivity.
  destruct (es_espacio c); [apply IH|].
  destruct (buscar patrones texto pos) as [[tipo fin]|];
    rewrite <- app_assoc; apply IH.
Qed.

End Escaner.

(** C10.  For every text the scanner ends and returns a token sequence
    no longer than the text: [analizador_lexico] answers, any larger
    bound on the passes of its loop gives the same answer, and the
    sequence has at most one token per character (every pass moves the
    offset forward, [buscar_avanza]). *)
Theorem analizador_lexico_termina (codigo_fuente : string) :
  exists tokens,
    analizador_lexico codigo_fuente = Some tokens
    /\ (forall pasos,
          String.length codigo_fuente <= pasos ->
          bucle pasos (caracteres codigo_fuente) 0 [] = Some tokens)
    /\ length tokens <= String.length codigo_fuente.
Proof.
  unfold analizador_lexico.
  destruct (bucle_total (length (caracteres codigo_fuente))
              (caracteres codigo_fuente) 0 []) as (n & Hn & Hl); [lia|].
  simpl in Hn. exists n. rewrite <- length_caracteres.
  repeat split; [assumption | | lia].
  intros pasos Hp. apply (bucle_mas_pasos _ _ _ _ _ _ Hn Hp).
Qed.

(** C6.  At an offset where the scanner stands on a character that is
    not a blank, if [patron] is the first entry of [patrones] that
    matches there (every entry before it fails), the scanner appends
    the name of that entry and goes on from the end of its match,
    which is further on in the text, whatever the entries after it
    would match or how long their matches would be: the run ends with
    the tokens found so far, then the name of that entry, then the
    tokens of the text from the end of the match. *)
Theorem lexico_primera_coincidencia (texto : list ascii) (posicion : nat)
    (c : ascii) (tokens : list string)
    (antes despues : list (string * regex)) (tipo : string) (patron : regex)
    (fin : nat) :
  nth_error texto posicion = Some c ->
  es_espacio c = false ->
  patrones = antes ++ (tipo, patron) :: despues ->
  Forall (falla_en texto posicion) antes ->
  re_match patron texto posicion = Some fin ->
  posicion < fin <= length texto
  /\ (forall pasos,
        bucle (S pasos) texto posicion tokens
        = bucle pasos texto fin (tokens ++ [tipo]))
  /\ (forall pasos,
        length texto - posicion <= pasos ->
        exists resto,
          bucle pasos texto fin [] = Some resto
          /\ bucle pasos texto posicion tokens = Some (tokens ++ tipo :: resto)).
Proof.
  intros Hc He Hp Hf Hm.
  assert (B : buscar patrones texto posicion = Some (tipo, fin)).
  { rewrite Hp. apply (buscar_primero antes despues tipo patron); assumption. }
  assert (Hpaso : forall pasos,
             bucle (S pasos) texto posicion tokens
             = bucle pasos texto fin (tokens ++ [tipo])).
  { intros pasos. simpl. rewrite Hc, He, B. reflexivity. }
  pose proof (buscar_avanza _ _ _ _ B) as Hav.
  split; [exact Hav|]. split; [exact Hpaso|].
  intros pasos Hl. destruct pasos as [|pasos]; [lia|].
  destruct (bucle_total pasos texto fin []) as (resto & Hr & _); [lia|].
  simpl in Hr. exists resto. split.
  - apply (bucle_mas_pasos pasos); [exact Hr | lia].
  - rewrite Hpaso, <- (app_nil_r (tokens ++ [tipo])), bucle_acumula, Hr.
    simpl. rewrite <- app_assoc. reflexivity.
Qed.

Lemma lexico_primera_coincidencia_testigo :
  re_match re_real (caracteres "3.14") 0 = Some 4
  /\ re_match re_entero (caracteres "3.14") 0 = Some 1
  /\ analizador_lexico "3.14" = Some ["entero"; "ERROR(.)"; "entero"]%string.
Proof.
  split; [reflexivity|]. split; [reflexivity|].
  destruct (lexico_primera_coincidencia (caracteres "3.14") 0 "3"%char []
              (firstn 6 patrones) (skipn 7 patrones) "entero" re_entero 1)
    as (_ & _ & H).
  - reflexivity.
  - reflexivity.
  - reflexivity.
  - repeat (constructor; [reflexivity|]). constructor.
  - reflexivity.
  - destruct (H 4) as (resto & Hr & Ht); [simpl; lia|].
    vm_compute in Hr. inversion Hr; subst resto. exact Ht.
Defined.

(** C7.  At an offset where the scanner stands on a character [c] that
    is not a blank and that no pattern matches, the scanner appends the
    token [ERROR(c)], which carries that one character and is the name
    of no pattern, moves one character forward and goes on: the run
    ends with a token sequence that has [ERROR(c)] at that place. *)
Theorem lexico_error_en_linea (texto : list ascii) (posicion : nat) (c : ascii)
    (tokens : list string) :
  nth_error texto posicion = Some c ->
  es_espacio c = false ->
  Forall (falla_en texto posicion) patrones ->
  (forall pasos,
     bucle (S pasos) texto posicion tokens
     = bucle pasos texto (posicion + 1) (tokens ++ [token_error c]))
  /\ (forall pasos,
        length texto - posicion <= pasos ->
        exists resto,
          bucle pasos texto posicion tokens
          = Some (tokens ++ token_error c :: resto))
  /\ token_error c = ("ERROR(" ++ String c ")")%string
  /\ ~ In (token_error c) (map fst patrones).
Proof.
  intros Hc He Hf.
  assert (Hpaso : forall pasos,
             bucle (S pasos) texto posicion tokens
             = bucle pasos texto (posicion + 1) (tokens ++ [token_error c])).
  { intros pasos. simpl. rewrite Hc, He, (buscar_ninguno _ _ _ Hf). reflexivity. }
  assert (Hlt : posicion < length texto) by (apply nth_error_Some; congruence).
  repeat split.
  - exact Hpaso.
  - intros pasos Hp. destruct pasos as [|pasos]; [lia|].
    rewrite Hpaso.
    destruct (bucle_total pasos texto (posicion + 1) (tokens ++ [token_error c]))
      as (n & Hn & _); [lia|].
    exists n. rewrite Hn, <- app_assoc. reflexivity.
  - unfold token_error. simpl. intros H.
    repeat (destruct H as [H|H]; [discriminate H|]). exact H.
Qed.

Lemma lexico_error_en_linea_testigo :
  bucle 3 (caracteres "a@b") 1 ["identificador"%string]
  = Some ["identificador"; "ERROR(@)"; "identificador"]%string.
Proof.
  destruct (lexico_error_en_linea (caracteres "a@b") 1 "@"%char
              ["identificador"%string]) as (H & _).
  - reflexivity.
  - reflexivity.
  - repeat (constructor; [reflexivity|]). constructor.
  - rewrite H. reflexivity.
Defined.

(** ** Patterns hidden by an earlier one *)

Section Sombras.

Lemma ultimo_app (prev : option ascii) (l : list ascii) (c : ascii) :
  ultimo prev (l ++ [c]) = Some c.
Proof. unfold ultimo. rewrite fold_left_app. reflexivity. Qed.

Lemma lit_inv (w : string) :
  forall prev s k x,
    coincide (lit w) prev s k = Some x ->
    exists s', s = caracteres w ++ s' /\ k (ultimo prev (caracteres w)) s' = Some x.
Proof.
  induction w as [|c w IH]; intros prev s k x H; simpl in H.
  - exists s. auto.
  - destruct s as [|c' s]; [discriminate|].
    destruct (Ascii.eqb c c') eqn:E; [|discriminate].
    apply Ascii.eqb_eq in E. subst c'.
    apply IH in H as (s' & -> & Hk). exists s'. auto.
Qed.

(** The greedy repetition finds a match whenever some split of the
    text into a run of the class and a rest is accepted by what
    follows. *)
Lemma codiciosa_completa (p : ascii -> bool) (run : list ascii) :
  forall prev s' k x,
    forallb p run = true ->
    k (ultimo prev run) s' = Some x ->
    exists y, codiciosa p prev (run ++ s') k = Some y.
Proof.
  induction run as [|c run IH]; intros prev s' k x Hp Hk.
  - simpl in *. destruct s' as [|c s']; simpl.
    + eauto.
    + destruct (p c); [|eauto].
      destruct (codiciosa p (Some c) s' k); eauto.
  - simpl in Hp. apply andb_true_iff in Hp as [Hc Hp].
    simpl. rewrite Hc.
    destruct (IH (Some c) s' k x Hp Hk) as (y & ->). eauto.
Qed.

Lemma codiciosa_tramo (p : ascii -> bool) (s : list ascii) :
  forall prev k x,
    codiciosa p prev s k = Some x ->
    exists run s',
      s = run ++ s' /\ forallb p run = true /\ k (ultimo prev run) s' = Some x.
Proof.
  induction s as [|c s IH]; intros prev k x H; simpl in H.
  - exists [], []. auto.
  - destruct (p c) eqn:Hc.
    + destruct (codiciosa p (Some c) s k) eqn:E.
      * inversion H; subst. apply IH in E as (run & s' & -> & Hp & Hk).
        exists (c :: run), s'. simpl. rewrite Hc. auto.
      * exists [], (c :: s). auto.
    + exists [], (c :: s). auto.
Qed.

Lemma cubre_coincide (p q : regex) :
  (forall prev s x,
     coincide q prev s (fun _ resto => Some resto) = Some x ->
     exists y, coincide p prev s (fun _ resto => Some resto) = Some y) ->
  cubre p q.
Proof.
  intros H texto posicion fin Hq. unfold re_match in *.
  destruct (coincide q _ (skipn posicion texto) _) as [x|] eqn:E; [|discriminate].
  apply H in E as (y & ->). eauto.
Qed.

(** The identifier pattern matches wherever [\bw\b] does, for a word
    [w] that an identifier can spell. *)
Lemma cubre_palabra (w : string) :
  es_identificador w = true -> cubre re_identificador (palabra w).
Proof.
  intros Hw. apply cubre_coincide. intros prev s x H.
  unfold palabra in H. simpl in H.
  destruct (es_frontera prev s) eqn:F; [|discriminate].
  apply lit_inv in H as (s' & -> & Hk).
  unfold es_identificador in Hw.
  destruct (caracteres w) as [|c r]; [discriminate|].
  apply andb_true_iff in Hw as [Hc Hr].
  unfold re_identificador. simpl. simpl in F. rewrite F, Hc.
  apply (codiciosa_completa resto_id r (Some c) s' _ x Hr). exact Hk.
Qed.

Lemma es_digito_es_palabra (c : ascii) : es_digito c = true -> es_palabra c = true.
Proof. unfold es_palabra. intros ->. reflexivity. Qed.

Lemma ultimo_digito (c : ascii) (run : list ascii) :
  es_digito c = true -> forallb es_digito run = true ->
  palabra_en (ultimo (Some c) run) = true.
Proof.
  revert c. induction run as [|d run IH]; intros c Hc Hr; simpl in *.
  - apply es_digito_es_palabra. assumption.
  - apply andb_true_iff in Hr as [Hd Hr]. apply (IH d); assumption.
Qed.

(** The integer pattern matches wherever the real pattern does: it
    stops at the point. *)
Lemma cubre_real : cubre re_entero re_real.
Proof.
  apply cubre_coincide. intros prev s x H.
  unfold re_real in H. cbn [coincide] in H.
  destruct (es_frontera prev s) eqn:F; [|discriminate].
  destruct s as [|c s]; [discriminate|].
  destruct (es_digito c) eqn:Hc; [|discriminate].
  apply codiciosa_tramo in H as (run & s' & -> & Hr & Hk).
  cbn [coincide] in Hk. destruct s' as [|pt s']; [discriminate|].
  destruct (Ascii.eqb "." pt) eqn:Ept; [|discriminate].
  apply Ascii.eqb_eq in Ept. subst pt.
  unfold re_entero. simpl. simpl in F. rewrite F, Hc.
  apply (codiciosa_completa es_digito run (Some c) ("."%char :: s') _
           ("."%char :: s') Hr).
  unfold es_frontera. rewrite (ultimo_digito c run Hc Hr). reflexivity.
Qed.

(** A name that comes after a pattern that covers every pattern of that
    name is never what [buscar] finds. *)
Lemma buscar_sombra (antes : list (string * regex)) (nombre_p : string) (p : regex)
    (despues : list (string * regex)) (nombre_q : string) :
  ~ In nombre_q (map fst antes) ->
  nombre_q <> nombre_p ->
  (forall q, In (nombre_q, q) despues -> cubre p q) ->
  forall texto posicion fin,
    buscar (antes ++ (nombre_p, p) :: despues) texto posicion <> Some (nombre_q, fin).
Proof.
  intros Ha Hn Hd texto posicion fin.
  induction antes as [|[n r] antes IH]; simpl app; unfold buscar; fold buscar.
  - destruct (re_match p texto posicion) as [f|] eqn:E.
    + intros H. inversion H. congruence.
    + intros H. apply buscar_descompone in H as (a' & q & d' & -> & _ & Hm).
      destruct (Hd q (in_elt _ _ _) texto posicion fin Hm) as (f & Hf).
      congruence.
  - destruct (re_match r texto posicion) as [f|].
    + intros H. inversion H. subst. apply Ha. simpl. auto.
    + apply IH. intros H. apply Ha. simpl. auto.
Qed.

(** Every token of the result is a token given to the loop, a name
    found by [buscar], or an error token. *)
Lemma bucle_tokens (P : string -> Prop) (texto : list ascii) :
  (forall posicion tipo fin,
     buscar patrones texto posicion = Some (tipo, fin) -> P tipo) ->
  (forall c, P (token_error c)) ->
  forall pasos posicion tokens r,
    Forall P tokens ->
    bucle pasos texto posicion tokens = Some r ->
    Forall P r.
Proof.
  intros Hb He. induction pasos as [|pasos IH]; intros posicion tokens r Ht H;
    simpl in H; destruct (nth_error texto posicion) as [c|];
    try discriminate; try (inversion H; subst; assumption).
  destruct (es_espacio c); [apply (IH _ _ _ Ht H)|].
  destruct (buscar patrones texto posicion) as [[tipo fin]|] eqn:B.
  - apply (IH _ _ _ (proj2 (Forall_app _ _ _)
                       (conj Ht (Forall_cons _ (Hb _ _ _ B) (Forall_nil _)))) H).
  - apply (IH _ _ _ (proj2 (Forall_app _ _ _)
                       (conj Ht (Forall_cons _ (He c) (Forall_nil _)))) H).
Qed.

Ltac sombra n nombre re :=
  change patrones with (firstn n patrones ++ (nombre, re) :: skipn (S n) patrones);
  apply buscar_sombra;
  [ simpl; intros H; repeat (destruct H as [H|H]; [discriminate H|]); exact H
  | discriminate
  | simpl; intros q H;
    repeat (destruct H as [H|H];
            [ first [ discriminate H
                    | injection H as <-;
                      first [ apply cubre_palabra; reflexivity
                            | apply cubre_real ] ] | ]);
    contradiction ].

Lemma buscar_alcanzable (texto : list ascii) (posicion : nat) (tipo : string)
    (fin : nat) :
  buscar patrones texto posicion = Some (tipo, fin) ->
  es_inalcanzable tipo = false.
Proof.
  intros B. destruct (es_inalcanzable tipo) eqn:E; [|reflexivity].
  exfalso. revert B. unfold es_inalcanzable in E. simpl in E.
  repeat (apply orb_true_iff in E as [E|E]); try discriminate E;
    apply String.eqb_eq in E; subst tipo.
  - sombra 5 "identificador"%string re_identificador.
  - sombra 5 "identificador"%string re_identificador.
  - sombra 5 "identificador"%string re_identificador.
  - sombra 5 "identificador"%string re_identificador.
  - sombra 6 "entero"%string re_entero.
Qed.

End Sombras.

(** C9.  The scanner never emits [if], [else], [while], [return] or
    [real].  In the order of [patrones] the identifier pattern comes
    before the four keyword patterns and matches wherever one of them
    does, and the integer pattern comes before the real pattern and
    matches wherever it does; so for every text the token sequence has
    none of the five names. *)
Theorem tokens_inalcanzables :
  map fst patrones
  = [ "("; ")"; "{"; "}"; "tipo"; "identificador"; "entero"; "real"; "cadena";
      "opSuma"; "opMul"; "opRelac"; "opIgualdad"; "opAnd"; "opOr"; "opNot";
      "="; ";"; ","; "if"; "else"; "while"; "return" ]%string
  /\ cubre re_identificador (palabra "if")
  /\ cubre re_identificador (palabra "else")
  /\ cubre re_identificador (palabra "while")
  /\ cubre re_identificador (palabra "return")
  /\ cubre re_entero re_real
  /\ forall codigo_fuente,
       exists tokens,
         analizador_lexico codigo_fuente = Some tokens
         /\ Forall (fun token => es_inalcanzable token = false) tokens.
Proof.
  split; [reflexivity|].
  repeat (split; [first [apply cubre_palabra; reflexivity | apply cubre_real]|]).
  intros codigo_fuente. unfold analizador_lexico.
  destruct (bucle_total (length (caracteres codigo_fuente))
              (caracteres codigo_fuente) 0 []) as (n & Hn & _); [lia|].
  eexists. split; [exact Hn|].
  apply (bucle_tokens _ (caracteres codigo_fuente)) with (4 := Hn).
  - intros posicion tipo fin. apply buscar_alcanzable.
  - intros c. reflexivity.
  - constructor.
Qed.

(** ** The passes of the automaton *)

Section Transiciones.

Variable t : Tabla.

Lemma accion_de_bien (a : Analizador) (estado : Z) (accion : string) :
  obtener_estado_actual a = Bien estado ->
  obtener_accion t estado (token_actual a) = Bien accion ->
  accion_de t a = Bien accion.
Proof. unfold accion_de. intros -> H. exact H. Qed.

Lemma reducir_regla_sigue (a : Analizador) (cabecera cuerpo : string) (a' : Analizador) :
  reducir_regla t a cabecera cuerpo = Sigue a' ->
  exists hijos p1 estado_anterior,
    recoger_hijos cuerpo (pila a) = Bien (hijos, p1)
    /\ primer_entero p1 = Bien estado_anterior
    /\ ((obtener_goto t estado_anterior cabecera = Bien None
         /\ a' = manejar_error (con_pila a (Arbol cabecera hijos :: p1))
                  estado_anterior cabecera)
        \/ (exists e,
              obtener_goto t estado_anterior cabecera = Bien (Some e)
              /\ a' = {| pila := Entero e :: Arbol cabecera hijos :: p1;
                         flujo_entrada := flujo_entrada a;
                         salida_proceso := salida_proceso a;
                         error_ocurrido := error_ocurrido a;
                         arbol := registrar_raiz (arbol a) cabecera
                                    (Arbol cabecera hijos) |})).
Proof.
  unfold reducir_regla, o_falla. intros H.
  destruct (recoger_hijos cuerpo (pila a)) as [[hijos p1]|] eqn:R; [|discriminate].
  destruct (primer_entero p1) as [ea|] eqn:P; [|discriminate].
  destruct (obtener_goto t ea cabecera) as [[e|]|] eqn:G; [| |discriminate];
    inversion H; subst; exists hijos, p1, ea; repeat split; eauto.
Qed.

Lemma reducir_sigue (a : Analizador) (accion : string) (a' : Analizador) :
  reducir t a accion = Sigue a' ->
  exists numero regla cabecera cuerpo,
    int_py (desde_1 accion) = Some numero
    /\ numero <> 0%Z
    /\ obtener_regla numero = Some regla
    /\ split_sep " ::= " regla = [cabecera; cuerpo]
    /\ reducir_regla t a cabecera cuerpo = Sigue a'.
Proof.
  unfold reducir. intros H.
  destruct (int_py (desde_1 accion)) as [numero|]; [|discriminate].
  destruct (Z.eqb numero 0) eqn:E0; [discriminate|].
  apply Z.eqb_neq in E0.
  destruct (obtener_regla numero) as [regla|] eqn:R; [|discriminate].
  destruct (split_sep " ::= " regla) as [|cab [|cuerpo [|x l]]] eqn:S;
    try discriminate.
  exists numero, regla, cab, cuerpo. auto.
Qed.

(** A pass that comes back to the top of the loop is a transition. *)
Lemma paso_transicion (a a' : Analizador) :
  paso t a = Sigue a' -> transicion t a a'.
Proof.
  unfold paso, o_falla. intros H.
  destruct (obtener_estado_actual a) as [estado|] eqn:E; [|discriminate].
  destruct (obtener_accion t estado (token_actual a)) as [accion|] eqn:A;
    [|discriminate].
  pose proof (accion_de_bien a estado accion E A) as Hac.
  destruct (startswith "d" accion) eqn:D.
  - unfold desplazar in H.
    destruct (int_py (desde_1 accion)) as [e|] eqn:I; [|discriminate].
    simpl in H. destruct (flujo_entrada a) as [|tok resto] eqn:F; [discriminate|].
    inversion H; subst; clear H.
    replace (token_actual a) with tok by (unfold token_actual; rewrite F; reflexivity).
    eapply tr_desplaza; eauto.
  - destruct (startswith "r" accion) eqn:R.
    + apply reducir_sigue in H as (numero & regla & cab & cuerpo & I & N0 & Rg & S & H).
      apply reducir_regla_sigue in H as (hijos & p1 & ea & Rh & Pe & [[G ->]|[e [G ->]]]).
      * eapply tr_sin_goto; eauto.
      * eapply (tr_reduce t a accion numero regla cab cuerpo hijos p1 ea e); eauto.
    + destruct (String.eqb accion "accept"); discriminate.
Qed.

(** A pass that ends the run raises an exception or is one of the
    three endings. *)
Lemma paso_fin (a : Analizador) (r : Resultado) :
  paso t a = Fin r -> (exists e, r = Falla e) \/ desenlace t a r.
Proof.
  unfold paso, o_falla. intros H.
  destruct (obtener_estado_actual a) as [estado|] eqn:E;
    [|left; inversion H; eauto].
  destruct (obtener_accion t estado (token_actual a)) as [accion|] eqn:A;
    [|left; inversion H; eauto].
  pose proof (accion_de_bien a estado accion E A) as Hac.
  destruct (startswith "d" accion) eqn:D.
  - destruct (desplazar _ _ _); [discriminate|]. inversion H. eauto.
  - destruct (startswith "r" accion) eqn:R.
    + unfold reducir in H.
      destruct (int_py (desde_1 accion)) as [numero|] eqn:I;
        [|inversion H; eauto].
      destruct (Z.eqb numero 0) eqn:E0.
      * apply Z.eqb_eq in E0. subst. inversion H. right.
        apply de_regla_0; assumption.
      * left. destruct (obtener_regla numero) as [regla|]; [|inversion H; eauto].
        destruct (split_sep " ::= " regla) as [|cab [|cuerpo [|x l]]];
          try (inversion H; eauto; fail).
        unfold reducir_regla, o_falla in H.
        destruct (recoger_hijos cuerpo _) as [[hijos p1]|]; [|inversion H; eauto].
        destruct (primer_entero p1) as [ea|]; [|inversion H; eauto].
        destruct (obtener_goto t ea cab) as [[e|]|]; inversion H; eauto.
    + right. destruct (String.eqb accion "accept") eqn:Ac.
      * apply String.eqb_eq in Ac. subst. inversion H. apply de_acepta. assumption.
      * apply String.eqb_neq in Ac. inversion H.
        apply (de_sin_accion t a estado accion); assumption.
Qed.

End Transiciones.

(** ** The stack under a reduction *)

Section Reduccion.

Lemma desapilar_pares (n : nat) :
  forall p hijos hs resto,
    desapilar n p hijos = Bien (hs, resto) ->
    exists pares,
      length pares = n /\ p = aplanar pares ++ resto
      /\ hs = rev (map snd pares) ++ hijos.
Proof.
  induction n as [|n IH]; intros p hijos hs resto H; simpl in H.
  - inversion H; subst. exists []. auto.
  - destruct p as [|e [|nd p]]; try discriminate. simpl in H.
    apply IH in H as (pares & Hl & -> & ->).
    exists ((e, nd) :: pares). simpl. rewrite <- app_assoc.
    repeat split; auto.
Qed.

Lemma recoger_hijos_pares (cuerpo : string) (p : Pila) (hijos : list Valor)
    (resto : Pila) :
  recoger_hijos cuerpo p = Bien (hijos, resto) ->
  exists pares,
    length pares = longitud_cuerpo cuerpo /\ p = aplanar pares ++ resto
    /\ hijos = rev (map snd pares).
Proof.
  unfold recoger_hijos, longitud_cuerpo.
  destruct (String.eqb (strip cuerpo) cuerpo_vacio); intros H.
  - inversion H; subst. exists []. auto.
  - apply desapilar_pares in H as (pares & Hl & Hp & Hh).
    rewrite app_nil_r in Hh. eauto.
Qed.

Lemma alterna_pares (pares : list (Valor * Valor)) (resto : Pila) :
  alterna (aplanar pares ++ resto) = true ->
  alterna resto = true /\ Forall par_bien_formado pares.
Proof.
  induction pares as [|[e nd] pares IH]; simpl; intros H; [auto|].
  destruct e as [e|]; [|discriminate].
  destruct nd as [|v h]; [destruct (aplanar pares ++ resto); discriminate|].
  apply IH in H as [Hr Hf]. split; [assumption|].
  constructor; [split; reflexivity | assumption].
Qed.


End Reduccion.

(** C3 (amended).  A reduction by a rule other than rule 0 that comes
    back to the loop, the right-hand side of the rule having length
    [n], 0 for the empty production, pops exactly [n] pairs from the
    stack, and the new node has as children the second components of
    those pairs in the reverse of the order in which they were popped,
    which is the order of the right-hand side; on a stack that
    alternates every pair is a state over a tree.  With [n = 0] nothing
    is popped and the node has no children. *)
Theorem reducir_desapila (t : Tabla) (a a' : Analizador) (accion : string)
    (numero : Z) (regla cabecera cuerpo : string) :
  int_py (desde_1 accion) = Some numero ->
  numero <> 0%Z ->
  obtener_regla numero = Some regla ->
  split_sep " ::= " regla = [cabecera; cuerpo] ->
  reducir t a accion = Sigue a' ->
  exists pares resto,
    length pares = longitud_cuerpo cuerpo
    /\ pila a = aplanar pares ++ resto
    /\ (alterna (pila a) = true -> Forall par_bien_formado pares)
    /\ (pila a' = Arbol cabecera (rev (map snd pares)) :: resto
        \/ exists e,
             pila a' = Entero e :: Arbol cabecera (rev (map snd pares)) :: resto)
    /\ (longitud_cuerpo cuerpo = 0 ->
        pares = [] /\ resto = pila a /\ rev (map snd pares) = []).
Proof.
  intros Hi Hn Hr Hs H.
  apply reducir_sigue in H as (numero' & regla' & cab & cpo & I & _ & Rg & S & H).
  assert (numero' = numero) by congruence. subst numero'.
  assert (regla' = regla) by congruence. subst regla'.
  assert (cab = cabecera /\ cpo = cuerpo) as [-> ->] by (split; congruence).
  apply reducir_regla_sigue in H as (hijos & p1 & ea & Rh & _ & Ha).
  apply recoger_hijos_pares in Rh as (pares & Hl & Hp & ->).
  exists pares, p1. repeat split; try assumption.
  - intros Hal. rewrite Hp in Hal. apply (alterna_pares _ _ Hal).
  - destruct Ha as [[_ ->]|[e [_ ->]]]; simpl; eauto.
  - rewrite H in Hl. destruct pares; [reflexivity | discriminate].
  - rewrite H in Hl. destruct pares; [rewrite Hp; reflexivity | discriminate].
  - rewrite H in Hl. destruct pares; [reflexivity | discriminate].
Qed.

Lemma reducir_desapila_testigo :
  reducir tabla_definiciones antes_de_r6 "r6" = Sigue despues_de_r6
  /\ exists pares resto,
       length pares = longitud_cuerpo "tipo identificador <ListaVar> ;"
       /\ pila antes_de_r6 = aplanar pares ++ resto
       /\ (alterna (pila antes_de_r6) = true -> Forall par_bien_formado pares)
       /\ (pila despues_de_r6
           = Arbol "<DefVar>" (rev (map snd pares)) :: resto
           \/ exists e,
                pila despues_de_r6
                = Entero e :: Arbol "<DefVar>" (rev (map snd pares)) :: resto)
       /\ (longitud_cuerpo "tipo identificador <ListaVar> ;" = 0 ->
           pares = [] /\ resto = pila antes_de_r6 /\ rev (map snd pares) = []).
Proof.
  split; [reflexivity|].
  apply (reducir_desapila tabla_definiciones antes_de_r6 despues_de_r6 "r6" 6
           "<DefVar> ::= tipo identificador <ListaVar> ;");
    try reflexivity.
  discriminate.
Defined.

(** C3 as stated fails: the right-hand side of rule 0 has length 1,
    and the reduction by rule 0 pops no pair and makes no node.  On the
    input [$] the third pass reads [r0] with the pair of state 1 over
    [<programa>] on top, and the program ends with that pair still on
    the stack and no node [<Inicial>]; so does a reduction by rule 0 on
    any stack. *)
Lemma regla_0_no_desapila :
  (exists regla cabecera cuerpo,
     obtener_regla 0 = Some regla
     /\ split_sep " ::= " regla = [cabecera; cuerpo]
     /\ cabecera = "<Inicial>"%string
     /\ longitud_cuerpo cuerpo = 1)
  /\ (exists a a',
        iterar 2 tabla_regla_0 (inicial ["$"%string]) = Some a
        /\ accion_de tabla_regla_0 a = Bien "r0"%string
        /\ paso tabla_regla_0 a = Fin (Termina a')
        /\ pila a = [Entero 1; Arbol "<programa>" [Arbol "<Definiciones>" []];
                     Entero 0]
        /\ pila a' = pila a)
  /\ forall (t : Tabla) (a : Analizador), reducir t a "r0" = Fin (Termina a).
Proof.
  split; [|split].
  - exists "<Inicial> ::= <programa>"%string, "<Inicial>"%string,
      "<programa>"%string.
    repeat split.
  - eexists. eexists.
    split; [vm_compute; reflexivity|].
    split; [vm_compute; reflexivity|].
    split; [vm_compute; reflexivity|].
    split; reflexivity.
  - intros t a. reflexivity.
Qed.

(** ** Invariants of a run *)

Section Corrida.

Variable t : Tabla.

Lemma iterar_ultimo (n : nat) :
  forall a0 a,
    iterar (S n) t a0 = Some a ->
    exists b,
      iterar n t a0 = Some b /\ error_ocurrido b = false /\ paso t b = Sigue a.
Proof.
  induction n as [|n IH]; intros a0 a H.
  - simpl in H. destruct (error_ocurrido a0) eqn:E; [discriminate|].
    destruct (paso t a0) as [a1|] eqn:P; [|discriminate].
    inversion H; subst. exists a0. auto.
  - change (iterar (S (S n)) t a0)
      with (if error_ocurrido a0 then None
            else match paso t a0 with
                 | Sigue a' => iterar (S n) t a'
                 | Fin _ => None
                 end) in H.
    destruct (error_ocurrido a0) eqn:E; [discriminate|].
    destruct (paso t a0) as [a1|] eqn:P; [|discriminate].
    apply IH in H as (b & Hb & Eb & Pb).
    exists b. simpl. rewrite E, P. auto.
Qed.

(** A property of the first object that every transition keeps holds
    after any number of passes. *)
Lemma iterar_invariante (P : Analizador -> Prop) (a0 : Analizador) :
  P a0 ->
  (forall a a', P a -> error_ocurrido a = false -> transicion t a a' -> P a') ->
  forall n a, iterar n t a0 = Some a -> P a.
Proof.
  intros H0 Hstep. induction n as [|n IH]; intros a H.
  - inversion H; subst. assumption.
  - apply iterar_ultimo in H as (b & Hb & Eb & Pb).
    apply (Hstep b a (IH b Hb) Eb). apply paso_transicion. assumption.
Qed.

(** [analizar] is [iterar] followed by the pass that ends the run. *)
Lemma analizar_iterar (v : nat) :
  forall a0 r,
    analizar v t a0 = Some r ->
    exists n b,
      iterar n t a0 = Some b
      /\ ((error_ocurrido b = true /\ r = Retorna b)
          \/ (error_ocurrido b = false /\ paso t b = Fin r)).
Proof.
  induction v as [|v IH]; intros a0 r H; [discriminate|].
  simpl in H. destruct (error_ocurrido a0) eqn:E.
  - inversion H; subst. exists 0, a0. auto.
  - destruct (paso t a0) as [a1|r1] eqn:P.
    + apply IH in H as (n & b & Hb & Hr). exists (S n), b.
      simpl. rewrite E, P. auto.
    + inversion H; subst. exists 0, a0. auto.
Qed.

Lemma transicion_forma (a a' : Analizador) :
  forma a -> error_ocurrido a = false -> transicion t a a' -> forma a'.
Proof.
  intros [[_ Ha]|[E _]] Ee; [|congruence]. intros T.
  destruct T as [accion e tok resto _ _ _ _
                |accion numero regla cab cuerpo hijos p1 ea e _ _ _ _ _ _ _ Rh _ _
                |accion numero regla cab cuerpo hijos p1 ea _ _ _ _ _ _ _ Rh _ _].
  - left. simpl. auto.
  - apply recoger_hijos_pares in Rh as (pares & _ & Hp & _).
    rewrite Hp in Ha. apply alterna_pares in Ha as [Ha _].
    left. simpl. auto.
  - apply recoger_hijos_pares in Rh as (pares & _ & Hp & _).
    rewrite Hp in Ha. apply alterna_pares in Ha as [Ha _].
    right. simpl. auto.
Qed.

Lemma iterar_forma (flujo : list string) (n : nat) (a : Analizador) :
  iterar n t (inicial flujo) = Some a -> forma a.
Proof.
  apply (iterar_invariante forma).
  - left. auto.
  - apply transicion_forma.
Qed.

Lemma desenlace_pila (a : Analizador) (r : Resultado) :
  desenlace t a r ->
  match r with
  | Retorna a' | Termina a' =>
      pila a' = pila a /\ flujo_entrada a' = flujo_entrada a /\ arbol a' = arbol a
  | Falla _ => True
  end.
Proof. intros D. destruct D; simpl; auto. Qed.



Lemma analizar_con_error (v : nat) (a : Analizador) :
  error_ocurrido a = true -> analizar (S v) t a = Some (Retorna a).
Proof. intros E. simpl. rewrite E. reflexivity. Qed.



End Corrida.

(** C4 (amended).  The stack starts as the single state 0.  After every
    shift and every reduction whose goto exists it alternates state,
    node, ..., with a state at the base and on top, and so it does when
    the run ends by [accept], by the reduction by rule 0 or by a
    missing action.  After a reduction whose goto is missing the error
    flag is set, the new node is on top of a stack that alternates, and
    [analizar] returns with the stack like that. *)
Theorem pila_alterna_o_nodo (t : Tabla) (flujo : list string) (n : nat)
    (a : Analizador) :
  iterar n t (inicial flujo) = Some a ->
  pila (inicial flujo) = [Entero 0]
  /\ (error_ocurrido a = false -> alterna (pila a) = true)
  /\ (error_ocurrido a = true ->
      cima_es_nodo (pila a) = true
      /\ forall v, analizar (S v) t a = Some (Retorna a))
  /\ (forall r,
        error_ocurrido a = false ->
        paso t a = Fin r ->
        match r with
        | Retorna a' | Termina a' => alterna (pila a') = true
        | Falla _ => True
        end).
Proof.
  intros H. apply iterar_forma in H.
  split; [reflexivity|]. repeat split.
  - intros E. destruct H as [[_ Ha]|[E' _]]; congruence.
  - destruct H as [[E' _]|[_ Hc]]; congruence.
  - intros v. apply analizar_con_error. assumption.
  - intros r E P. destruct H as [[_ Ha]|[E' _]]; [|congruence].
    apply paso_fin in P as [[e ->]|D]; [exact I|].
    apply desenlace_pila in D. destruct r as [a'|a'|e]; [| |exact I];
      destruct D as (-> & _); assumption.
Qed.

Lemma pila_alterna_o_nodo_testigo :
  exists a,
    iterar 5 tabla_definiciones (inicial ["tipo"; "identificador"; ";"; "$"]%string)
    = Some a
    /\ pila a
       = [Entero 4;
          Arbol "<DefVar>"
            [Arbol "tipo" []; Arbol "identificador" [];
             Arbol "<ListaVar>" []; Arbol ";" []];
          Entero 0]
    /\ alterna (pila a) = true.
Proof.
  eexists. split; [vm_compute; reflexivity|]. split; [reflexivity|].
  refine (proj1 (proj2 (pila_alterna_o_nodo tabla_definiciones
                          ["tipo"; "identificador"; ";"; "$"]%string 5 _ _)) _);
    vm_compute; reflexivity.
Defined.

(** C4 as stated fails: with a table that has no goto for
    [<Definiciones>] in state 0, the run on the empty text ends in the
    error state with the node [<Definiciones>] on top of the stack. *)
Lemma pila_con_nodo_en_la_cima :
  exists a,
    analizar 2 tabla_sin_goto (inicial ["$"%string]) = Some (Retorna a)
    /\ error_ocurrido a = true
    /\ pila a = [Arbol "<Definiciones>" []; Entero 0]
    /\ alterna (pila a) = false.
Proof. eexists. split; [vm_compute; reflexivity|]. repeat split. Qed.




(** C2 (amended).  In a reduction (by a rule other than 0), once the
    right-hand side has been popped and the state [estado_anterior] is
    read from the stack, the new node is pushed before the goto is
    looked up.  If the lookup gives a state, that state is pushed over
    the node and nothing is written to the trace.  If it gives none,
    only the node has been pushed: the error message for exactly
    ([estado_anterior], [cabecera]) is appended to the trace with the
    stack that has the node on top, the error flag is set, and
    [analizar] returns at its next pass; no exception is raised. *)
Theorem reducir_goto (t : Tabla) (a : Analizador) (accion : string) (numero : Z)
    (regla cabecera cuerpo : string) (hijos : list Valor) (p1 : Pila)
    (estado_anterior : Z) :
  int_py (desde_1 accion) = Some numero ->
  numero <> 0%Z ->
  obtener_regla numero = Some regla ->
  split_sep " ::= " regla = [cabecera; cuerpo] ->
  recoger_hijos cuerpo (pila a) = Bien (hijos, p1) ->
  primer_entero p1 = Bien estado_anterior ->
  (forall e,
     obtener_goto t estado_anterior cabecera = Bien (Some e) ->
     exists a',
       reducir t a accion = Sigue a'
       /\ pila a' = Entero e :: Arbol cabecera hijos :: p1
       /\ error_ocurrido a' = error_ocurrido a
       /\ salida_proceso a' = salida_proceso a)
  /\ (obtener_goto t estado_anterior cabecera = Bien None ->
      exists a',
        reducir t a accion = Sigue a'
        /\ pila a' = Arbol cabecera hijos :: p1
        /\ error_ocurrido a' = true
        /\ salida_proceso a'
           = salida_proceso a
             ++ [(obtener_pila_como_cadena a', entrada_como_cadena a,
                  mensaje_error estado_anterior cabecera)]
        /\ flujo_entrada a' = flujo_entrada a
        /\ arbol a' = arbol a
        /\ forall v, analizar (S v) t a' = Some (Retorna a')).
Proof.
  intros Hi Hn Hr Hs Hh Hp.
  assert (R : reducir t a accion = reducir_regla t a cabecera cuerpo).
  { unfold reducir. rewrite Hi, Hr, Hs.
    destruct (Z.eqb numero 0) eqn:E; [|reflexivity].
    apply Z.eqb_eq in E. contradiction. }
  rewrite R. unfold reducir_regla, o_falla. rewrite Hh, Hp. split.
  - intros e ->. eexists. split; [reflexivity|]. simpl. auto.
  - intros ->. eexists. split; [reflexivity|]. simpl.
    repeat split.
Qed.

Lemma reducir_goto_testigo :
  exists a',
    reducir tabla_sin_goto (inicial ["$"%string]) "r2" = Sigue a'
    /\ pila a' = [Arbol "<Definiciones>" []; Entero 0]
    /\ error_ocurrido a' = true
    /\ salida_proceso a'
       = [("0 <Definiciones>", "$", mensaje_error 0 "<Definiciones>")]%string.
Proof.
  destruct (reducir_goto tabla_sin_goto (inicial ["$"%string]) "r2" 2
              "<Definiciones> ::= \e" "<Definiciones>" "\e" [] [Entero 0] 0)
    as (_ & H); try reflexivity; [discriminate|].
  destruct (H eq_refl) as (a' & Hr & Hp & He & Hs & _).
  exists a'. repeat split; try assumption.
  rewrite Hs. unfold obtener_pila_como_cadena. rewrite Hp. reflexivity.
Defined.

(** C2 as stated fails: in state 0 of a table with no goto for
    [<Definiciones>], the reduction by rule 2 finds no goto and leaves
    the new node pushed on the stack. *)
Lemma nodo_apilado_sin_goto :
  obtener_goto tabla_sin_goto 0 "<Definiciones>" = Bien None
  /\ exists a',
       reducir tabla_sin_goto (inicial ["$"%string]) "r2" = Sigue a'
       /\ error_ocurrido a' = true
       /\ pila a' = Arbol "<Definiciones>" [] :: pila (inicial ["$"%string])
       /\ pila a' <> pila (inicial ["$"%string]).
Proof.
  split; [reflexivity|]. eexists. repeat split. simpl. discriminate.
Qed.

(** C5 (amended).  When the action read in a pass is a reduction by
    rule 0, the pass writes its trace entry and the program ends by
    [exit()], which is the result [Termina]: nothing is popped or
    pushed and [analizar] does not return.  When the action is
    [accept], [analizar] returns.  The two ends of a run are different
    results. *)
Theorem regla_0_termina (t : Tabla) (a : Analizador) (accion : string) (v : nat) :
  error_ocurrido a = false ->
  accion_de t a = Bien accion ->
  (startswith "d" accion = false ->
   startswith "r" accion = true ->
   int_py (desde_1 accion) = Some 0%Z ->
   analizar (S v) t a = Some (Termina (registrar a accion))
   /\ pila (registrar a accion) = pila a
   /\ forall a', analizar (S v) t a <> Some (Retorna a'))
  /\ (accion = "accept"%string ->
      analizar (S v) t a = Some (Retorna (registrar a accion))
      /\ forall a', analizar (S v) t a <> Some (Termina a')).
Proof.
  intros E Hac. unfold accion_de, ligar in Hac.
  destruct (obtener_estado_actual a) as [estado|] eqn:Ee; [|discriminate].
  split.
  - intros Hd Hr Hi.
    assert (P : paso t a = Fin (Termina (registrar a accion))).
    { unfold paso, o_falla. rewrite Ee, Hac, Hd, Hr.
      unfold reducir. rewrite Hi. reflexivity. }
    simpl. rewrite E, P. repeat split. discriminate.
  - intros ->.
    assert (P : paso t a = Fin (Retorna (registrar a "accept"))).
    { unfold paso, o_falla. rewrite Ee, Hac. reflexivity. }
    simpl. rewrite E, P. repeat split. discriminate.
Qed.

Lemma regla_0_termina_testigo :
  exists a,
    iterar 2 tabla_regla_0 (inicial ["$"%string]) = Some a
    /\ analizar 1 tabla_regla_0 a = Some (Termina (registrar a "r0"))
    /\ pila (registrar a "r0") = pila a.
Proof.
  eexists. split; [vm_compute; reflexivity|].
  refine (let H := proj1 (regla_0_termina tabla_regla_0 _ "r0" 0 _ _) _ _ _ in
          conj (proj1 H) (proj1 (proj2 H)));
    vm_compute; reflexivity.
Defined.

(** C5 as stated fails: the reduction by rule 0 ends the program by
    [exit()]; [analizar] never returns an object from which a caller
    could tell that end from another. *)
Lemma regla_0_sale_del_programa :
  (exists a, analizar 3 tabla_regla_0 (inicial ["$"%string]) = Some (Termina a))
  /\ ~ (exists v a,
          analizar v tabla_regla_0 (inicial ["$"%string]) = Some (Retorna a)).
Proof.
  split; [eexists; reflexivity|].
  intros (v & a & H).
  do 4 (destruct v as [|v]; [discriminate H|]).
  discriminate H.
Qed.

(** ** The leaves of the trees *)

Section Hojas.

Variable t : Tabla.

Lemma cabeceras_no_terminales :
  forallb (fun r => match split_sep " ::= " (snd r) with
                    | [cabecera; _] => es_no_terminal cabecera
                    | _ => true
                    end) reglas = true.
Proof. reflexivity. Qed.

Lemma cabecera_no_terminal (numero : Z) (regla cabecera cuerpo : string) :
  obtener_regla numero = Some regla ->
  split_sep " ::= " regla = [cabecera; cuerpo] ->
  es_no_terminal cabecera = true.
Proof.
  unfold obtener_regla. intros H S.
  destruct (find _ reglas) as [r|] eqn:F; [|discriminate].
  inversion H; subst. apply find_some in F as [Hin _].
  pose proof cabeceras_no_terminales as Hc.
  rewrite forallb_forall in Hc. specialize (Hc r Hin).
  rewrite S in Hc. exact Hc.
Qed.

Lemma hojas_terminales_nodo (cabecera : string) (hijos : list Valor) :
  es_no_terminal cabecera = true ->
  hojas_terminales (Arbol cabecera hijos) = flat_map hojas_terminales hijos.
Proof. intros H. destruct hijos; simpl; [rewrite H|]; reflexivity. Qed.

Lemma hojas_de_los_pares (pares : list (Valor * Valor)) :
  Forall par_bien_formado pares ->
  flat_map hojas_terminales (rev (aplanar pares))
  = flat_map hojas_terminales (rev (map snd pares)).
Proof.
  induction 1 as [|[e nd] pares [He _] _ IH]; [reflexivity|].
  simpl in *. repeat rewrite flat_map_app. rewrite IH.
  destruct e as [e|]; [|discriminate]. simpl.
  repeat rewrite app_nil_r. reflexivity.
Qed.

Lemma transicion_conserva (entrada : list string) (a a' : Analizador) :
  Forall (fun tok => es_no_terminal tok = false) entrada ->
  conserva entrada a ->
  error_ocurrido a = false ->
  transicion t a a' ->
  conserva entrada a'.
Proof.
  intros Hent [Hf Hh] E T. split; [apply (transicion_forma t a a' Hf E T)|].
  destruct Hf as [[_ Ha]|[E' _]]; [|congruence].
  unfold hojas_de_la_pila in *.
  destruct T as [accion e tok resto _ _ _ Hfl
                |accion numero regla cab cuerpo hijos p1 ea e _ _ _ _ _ Rg Sp Rh _ _
                |accion numero regla cab cuerpo hijos p1 ea _ _ _ _ _ Rg Sp Rh _ _].
  - simpl. rewrite Hfl in Hh.
    assert (Htok : es_no_terminal tok = false).
    { rewrite Forall_forall in Hent. apply Hent. rewrite <- Hh.
      apply in_or_app. right. left. reflexivity. }
    repeat rewrite flat_map_app. simpl. rewrite Htok. simpl.
    rewrite app_nil_r, <- app_assoc. exact Hh.
  - pose proof (cabecera_no_terminal _ _ _ _ Rg Sp) as Hc.
    apply recoger_hijos_pares in Rh as (pares & _ & Hp & ->).
    rewrite Hp in Ha. apply alterna_pares in Ha as [_ Hb].
    simpl pila. simpl flujo_entrada. simpl rev.
    repeat rewrite flat_map_app.
    change (flat_map hojas_terminales [Entero e]) with (@nil string).
    rewrite app_nil_r. cbn [flat_map]. rewrite app_nil_r.
    rewrite (hojas_terminales_nodo _ _ Hc), <- (hojas_de_los_pares _ Hb).
    rewrite <- flat_map_app, <- rev_app_distr, <- Hp. exact Hh.
  - pose proof (cabecera_no_terminal _ _ _ _ Rg Sp) as Hc.
    apply recoger_hijos_pares in Rh as (pares & _ & Hp & ->).
    rewrite Hp in Ha. apply alterna_pares in Ha as [_ Hb].
    simpl pila. simpl flujo_entrada. simpl rev.
    repeat rewrite flat_map_app. cbn [flat_map]. rewrite app_nil_r.
    rewrite (hojas_terminales_nodo _ _ Hc), <- (hojas_de_los_pares _ Hb).
    rewrite <- flat_map_app, <- rev_app_distr, <- Hp. exact Hh.
Qed.

Lemma iterar_conserva (entrada : list string) (n : nat) (a : Analizador) :
  Forall (fun tok => es_no_terminal tok = false) entrada ->
  iterar n t (inicial entrada) = Some a ->
  conserva entrada a.
Proof.
  intros Hent. apply (iterar_invariante t (conserva entrada)).
  - split; [left; auto | reflexivity].
  - intros b b'. apply transicion_conserva. assumption.
Qed.

End Hojas.

(** No token of the scanner is spelled like a nonterminal. *)
Lemma lexico_sin_no_terminales (codigo_fuente : string) (tokens : list string) :
  analizador_lexico codigo_fuente = Some tokens ->
  Forall (fun tok => es_no_terminal tok = false) tokens.
Proof.
  unfold analizador_lexico. intros H.
  apply (bucle_tokens _ (caracteres codigo_fuente)) with (4 := H).
  - intros posicion tipo fin B.
    apply buscar_descompone in B as (antes & patron & despues & E & _ & _).
    assert (Hin : In tipo (map fst patrones)).
    { rewrite E, map_app. apply in_or_app. right. left. reflexivity. }
    assert (Hall : forallb (fun n => negb (es_no_terminal n)) (map fst patrones)
                   = true) by reflexivity.
    rewrite forallb_forall in Hall. apply Hall in Hin.
    destruct (es_no_terminal tipo); [discriminate | reflexivity].
  - intros c. reflexivity.
  - constructor.
Qed.

(** C1 (amended).  When the driver accepts a token sequence followed
    by [$], none of whose tokens is spelled like a nonterminal, the
    leaves that carry a token (the nodes without children that an empty
    production creates are leaves too, and carry none) of the trees on
    the stack, from its base to its top, followed by the input still
    unread, are the original sequence; so if the run ends with [$]
    alone unread and the recorded root alone on the stack, the leaves
    of the root that carry a token are exactly the tokens without [$].
    The same holds when the run ends by the reduction by rule 0. *)
Theorem hojas_de_la_raiz (t : Tabla) (tokens : list string) (v : nat)
    (r : Resultado) (a : Analizador) :
  Forall (fun tok => es_no_terminal tok = false) tokens ->
  analizar v t (inicial (tokens ++ ["$"%string])) = Some r ->
  exito r = Some a ->
  hojas_de_la_pila (pila a) ++ flujo_entrada a = tokens ++ ["$"%string]
  /\ forall raiz e e0,
       arbol a = Some raiz ->
       pila a = [Entero e; raiz; Entero e0] ->
       flujo_entrada a = ["$"%string] ->
       hojas_terminales raiz = tokens.
Proof.
  intros Htok H Ex.
  assert (Hent : Forall (fun tok => es_no_terminal tok = false)
                   (tokens ++ ["$"%string])).
  { apply Forall_app. split; [assumption | repeat constructor]. }
  apply analizar_iterar in H as (n & b & Hb & [[Eb Hr]|[Eb P]]).
  { subst r. simpl in Ex. rewrite Eb in Ex. discriminate. }
  apply (iterar_conserva t _ n b Hent) in Hb as [_ Hh].
  apply paso_fin in P as [[e Hr]|D]; [subst r; discriminate|].
  assert (Hp : pila a = pila b /\ flujo_entrada a = flujo_entrada b).
  { apply desenlace_pila in D. destruct r as [a'|a'|e]; simpl in Ex.
    - destruct (error_ocurrido a'); inversion Ex; subst. tauto.
    - inversion Ex; subst. tauto.
    - discriminate. }
  destruct Hp as [Hp Hfl]. rewrite <- Hp, <- Hfl in Hh.
  split; [assumption|].
  intros raiz e e0 _ Hpila Hflujo. rewrite Hpila, Hflujo in Hh.
  unfold hojas_de_la_pila in Hh. simpl in Hh. rewrite app_nil_r in Hh.
  apply app_inv_tail in Hh. exact Hh.
Qed.

Lemma hojas_de_la_raiz_testigo :
  exists a raiz,
    analizar 10 tabla_definiciones
      (inicial (["tipo"; "identificador"; ";"] ++ ["$"]))%string
    = Some (Retorna a)
    /\ arbol a = Some raiz
    /\ hojas_terminales raiz = ["tipo"; "identificador"; ";"]%string.
Proof.
  eexists. eexists. split; [vm_compute; reflexivity|]. split; [reflexivity|].
  refine (proj2 (hojas_de_la_raiz tabla_definiciones
                   ["tipo"; "identificador"; ";"]%string 10 _ _ _ _ _)
            _ 1%Z 0%Z _ _ _);
    try (vm_compute; reflexivity).
  repeat constructor.
Defined.

(** C1 as stated fails: the driver accepts [tipo identificador ; $],
    and the leaves of the tree it records include the nodes without
    children that the empty productions of [<ListaVar>] and
    [<Definiciones>] create. *)
Lemma hojas_de_producciones_vacias :
  exists a raiz,
    analizar 10 tabla_definiciones (inicial (["tipo"; "identificador"; ";"] ++ ["$"]))%string
    = Some (Retorna a)
    /\ error_ocurrido a = false
    /\ arbol a = Some raiz
    /\ hojas raiz
       = ["tipo"; "identificador"; "<ListaVar>"; ";"; "<Definiciones>"]%string
    /\ hojas raiz <> ["tipo"; "identificador"; ";"]%string.
Proof.
  eexists. eexists. split; [vm_compute; reflexivity|].
  repeat split. simpl. discriminate.
Qed.

(** ** The scenarios of the specification, evaluated *)

Section Escenarios.

Local Open Scope string_scope.

(** Scenario A: the text [int foo(){}] is accepted, and the tree has
    the start symbol at its root and a [<DefFunc>] below it. *)
Example escenario_A_tokens :
  analizador_lexico "int foo(){}"
  = Some ["tipo"; "identificador"; "("; ")"; "{"; "}"].
Proof. vm_compute. reflexivity. Qed.

Example escenario_A_arbol :
  exists a,
    analizar 20 tabla_definiciones
      (inicial ["tipo"; "identificador"; "("; ")"; "{"; "}"; "$"])
    = Some (Retorna a)
    /\ error_ocurrido a = false
    /\ arbol a
       = Some
           (Arbol "<programa>"
              [Arbol "<Definiciones>"
                 [Arbol "<Definicion>"
                    [Arbol "<DefFunc>"
                       [Arbol "tipo" []; Arbol "identificador" [];
                        Arbol "(" []; Arbol "<Parametros>" []; Arbol ")" [];
                        Arbol "<BloqFunc>"
                          [Arbol "{" []; Arbol "<DefLocales>" [];
                           Arbol "}" []]]];
                  Arbol "<Definiciones>" []]]).
Proof. eexists. split; [vm_compute; reflexivity|]. split; reflexivity. Qed.

(** Scenario B: the character [@] becomes an error token, and the
    driver stops with the syntax error of that token. *)
Example escenario_B :
  analizador_lexico "int @" = Some ["tipo"; "ERROR(@)"]
  /\ exists a,
       analizar 20 tabla_definiciones (inicial ["tipo"; "ERROR(@)"; "$"])
       = Some (Retorna a)
       /\ error_ocurrido a = true
       /\ ultima_entrada a
          = Some ("0 tipo 5", "ERROR(@) $", mensaje_error 5 "ERROR(@)").
Proof.
  split; [vm_compute; reflexivity|].
  eexists. split; [vm_compute; reflexivity|]. split; reflexivity.
Qed.

(** Scenario C: the empty [<Parametros>] is reduced by rule 10 with no
    pop, and its node has no children. *)
Example escenario_C :
  exists a a',
    iterar 3 tabla_definiciones
      (inicial ["tipo"; "identificador"; "("; ")"; "{"; "}"; "$"])
    = Some a
    /\ accion_de tabla_definiciones a = Bien "r10"
    /\ paso tabla_definiciones a = Sigue a'
    /\ pila a' = Entero 11 :: Arbol "<Parametros>" [] :: pila a.
Proof.
  eexists. eexists. split; [vm_compute; reflexivity|].
  split; [vm_compute; reflexivity|].
  split; [vm_compute; reflexivity|]. reflexivity.
Qed.

(** The patterns are tried in the order of the list, not by length:
    the real pattern would match all of [3.14], and the scanner emits
    an integer, an error token for the point and an integer. *)
Example prioridad_no_longitud :
  re_match re_real (caracteres "3.14") 0 = Some 4
  /\ analizador_lexico "3.14" = Some ["entero"; "ERROR(.)"; "entero"]
  /\ analizador_lexico "if (x) return 1;"
     = Some ["identificador"; "("; "identificador"; ")"; "identificador";
             "entero"; ";"].
Proof. repeat split; vm_compute; reflexivity. Qed.

(** The text primitives on the forms the program gives them. *)
Example int_py_ejemplos :
  map int_py ["12"; "-3"; "+4"; " 7 "; "007"; "1_0"; ""; "+"; "d5"; "1__0";
              "_1"; "1_"; "3.0"; String "160" "5"; String "028" "5"]
  = [Some 12; Some (-3); Some 4; Some 7; Some 7; Some 10; None; None; None;
     None; None; None; None; Some 5; None]%Z.
Proof. reflexivity. Qed.

Example regla_6_partida :
  split_sep " ::= " "<DefVar> ::= tipo identificador <ListaVar> ;"
  = ["<DefVar>"; "tipo identificador <ListaVar> ;"]
  /\ split_blancos (strip "tipo identificador <ListaVar> ;")
     = ["tipo"; "identificador"; "<ListaVar>"; ";"]
  /\ strip (strip_angulos "<DefVar>") = "DefVar".
Proof. repeat split. Qed.

(** Every rule of [reglas] splits into a head and a body. *)
Example reglas_partidas :
  forallb (fun r => match split_sep " ::= " (snd r) with
                    | [_; _] => true
                    | _ => false
                    end) reglas = true.
Proof. reflexivity. Qed.

End Escenarios.

(* ================================================================== *)
(** * Further properties of the program *)

(** ** The scanner, line by line *)

Section Lineas.

Lemma codiciosa_prev (p : ascii -> bool) (s : list ascii) :
  forall p1 p2 (k1 k2 : cont),
    palabra_en p1 = palabra_en p2 ->
    (forall q1 q2 s', palabra_en q1 = palabra_en q2 -> k1 q1 s' = k2 q2 s') ->
    codiciosa p p1 s k1 = codiciosa p p2 s k2.
Proof.
  induction s as [|c s IH]; intros p1 p2 k1 k2 Hp Hk; simpl.
  - apply Hk. assumption.
  - rewrite (IH (Some c) (Some c) k1 k2 eq_refl Hk).
    rewrite (Hk p1 p2 (c :: s) Hp). reflexivity.
Qed.

Lemma perezosa_prev (p : ascii -> bool) (s : list ascii) :
  forall p1 p2 (k1 k2 : cont),
    palabra_en p1 = palabra_en p2 ->
    (forall q1 q2 s', palabra_en q1 = palabra_en q2 -> k1 q1 s' = k2 q2 s') ->
    perezosa p p1 s k1 = perezosa p p2 s k2.
Proof.
  induction s as [|c s IH]; intros p1 p2 k1 k2 Hp Hk; simpl.
  - rewrite (Hk p1 p2 [] Hp). reflexivity.
  - rewrite (Hk p1 p2 (c :: s) Hp).
    rewrite (IH (Some c) (Some c) k1 k2 eq_refl Hk). reflexivity.
Qed.

(** A match sees the character before it only as a word character or
    not. *)
Lemma coincide_prev (r : regex) :
  forall p1 p2 s (k1 k2 : cont),
    palabra_en p1 = palabra_en p2 ->
    (forall q1 q2 s', palabra_en q1 = palabra_en q2 -> k1 q1 s' = k2 q2 s') ->
    coincide r p1 s k1 = coincide r p2 s k2.
Proof.
  induction r as [ |c|p| |a IHa b IHb|a IHa b IHb|p|p|p];
    intros p1 p2 s k1 k2 Hp Hk; cbn [coincide].
  - apply Hk. assumption.
  - destruct s as [|c' s']; [reflexivity|].
    rewrite (Hk (Some c') (Some c') s' eq_refl). reflexivity.
  - destruct s as [|c' s']; [reflexivity|].
    rewrite (Hk (Some c') (Some c') s' eq_refl). reflexivity.
  - unfold es_frontera. rewrite Hp, (Hk p1 p2 s Hp). reflexivity.
  - apply IHa; [assumption|]. intros q1 q2 s' Hq. apply IHb; assumption.
  - rewrite (IHa p1 p2 s k1 k2 Hp Hk), (IHb p1 p2 s k1 k2 Hp Hk). reflexivity.
  - apply codiciosa_prev; assumption.
  - destruct s as [|c' s']; [reflexivity|].
    rewrite (codiciosa_prev p s' (Some c') (Some c') k1 k2 eq_refl Hk).
    reflexivity.
  - apply perezosa_prev; assumption.
Qed.

Lemma coincide_resto (r : regex) (prev : option ascii) (s resto : list ascii) :
  coincide r prev s (fun _ x => Some x) = Some resto ->
  length resto <= length s.
Proof.
  intros H. apply coincide_inv in H as (q & s' & Hk & Hl & _).
  inversion Hk; subst. assumption.
Qed.

(** Matching in a text that follows a prefix whose last character is
    no word character is matching in the text alone, the offsets moved
    by the length of the prefix. *)
Lemma re_match_desplazado (r : regex) (pre b : list ascii) (pos : nat) :
  palabra_en (ultimo None pre) = false ->
  re_match r (pre ++ b) (length pre + pos)
  = option_map (fun fin => length pre + fin) (re_match r b pos).
Proof.
  intros Hu. unfold re_match.
  rewrite skipn_app, skipn_all2 by lia.
  replace (length pre + pos - length pre) with pos by lia. simpl app.
  set (k := fun (_ : option ascii) (resto : list ascii) => Some resto).
  assert (E : coincide r
                (match length pre + pos with
                 | O => None
                 | S q => nth_error (pre ++ b) q
                 end) (skipn pos b) k
              = coincide r
                  (match pos with O => None | S q => nth_error b q end)
                  (skipn pos b) k).
  { apply coincide_prev; [|reflexivity].
    destruct pos as [|q].
    - rewrite Nat.add_0_r.
      destruct pre as [|c pre] using rev_ind; [reflexivity|].
      rewrite ultimo_app in Hu. rewrite length_app. simpl length.
      replace (length pre + 1) with (S (length pre)) by lia.
      rewrite <- app_assoc. rewrite nth_error_app2 by lia.
      rewrite Nat.sub_diag. simpl. assumption.
    - replace (length pre + S q) with (S (length pre + q)) by lia.
      rewrite nth_error_app2 by lia.
      replace (length pre + q - length pre) with q by lia. reflexivity. }
  rewrite E. clear E.
  destruct (coincide r _ (skipn pos b) k) as [resto|] eqn:C; [|reflexivity].
  apply coincide_resto in C. rewrite length_skipn in C.
  simpl. rewrite length_app. f_equal. lia.
Qed.

Lemma buscar_desplazado (ps : list (string * regex)) (pre b : list ascii)
    (pos : nat) :
  palabra_en (ultimo None pre) = false ->
  buscar ps (pre ++ b) (length pre + pos)
  = option_map (fun nf => (fst nf, length pre + snd nf)) (buscar ps b pos).
Proof.
  intros Hu. induction ps as [|[n r] ps IH]; unfold buscar; fold buscar;
    [reflexivity|].
  rewrite (re_match_desplazado r pre b pos Hu).
  destruct (re_match r b pos); [reflexivity | exact IH].
Qed.

Lemma bucle_desplazado (pre b : list ascii) :
  palabra_en (ultimo None pre) = false ->
  forall pasos pos tokens,
    bucle pasos (pre ++ b) (length pre + pos) tokens = bucle pasos b pos tokens.
Proof.
  intros Hu. induction pasos as [|pasos IH]; intros pos tokens; simpl;
    rewrite nth_error_app2 by lia;
    replace (length pre + pos - length pre) with pos by lia;
    [reflexivity|].
  destruct (nth_error b pos) as [c|]; [|reflexivity].
  rewrite (buscar_desplazado patrones pre b pos Hu).
  replace (length pre + pos + 1) with (length pre + (pos + 1)) by lia.
  destruct (es_espacio c); [apply IH|].
  destruct (buscar patrones b pos) as [[tipo fin]|]; simpl; apply IH.
Qed.

Lemma codiciosa_barrera (c : ascii) (b : list ascii) (p : ascii -> bool)
    (s : list ascii) :
  p c = false ->
  forall prev (k k' : cont),
    (forall q s', k' q (s' ++ c :: b) = option_map (fun x => x ++ c :: b) (k q s')) ->
    codiciosa p prev (s ++ c :: b) k'
    = option_map (fun x => x ++ c :: b) (codiciosa p prev s k).
Proof.
  intros Hc. induction s as [|d s IH]; intros prev k k' Hk; simpl.
  - rewrite Hc. apply (Hk prev []).
  - destruct (p d); [|apply (Hk prev (d :: s))].
    rewrite (IH (Some d) k k' Hk).
    destruct (codiciosa p (Some d) s k); [reflexivity|].
    apply (Hk prev (d :: s)).
Qed.

Lemma perezosa_barrera (c : ascii) (b : list ascii) (p : ascii -> bool)
    (s : list ascii) :
  p c = false ->
  forall prev (k k' : cont),
    (forall q s', k' q (s' ++ c :: b) = option_map (fun x => x ++ c :: b) (k q s')) ->
    perezosa p prev (s ++ c :: b) k'
    = option_map (fun x => x ++ c :: b) (perezosa p prev s k).
Proof.
  intros Hc. induction s as [|d s IH]; intros prev k k' Hk.
  - pose proof (Hk prev []) as H0. simpl in *. rewrite H0, Hc.
    destruct (k prev []); reflexivity.
  - pose proof (Hk prev (d :: s)) as H0. simpl in *. rewrite H0.
    destruct (k prev (d :: s)); [reflexivity|]. simpl.
    destruct (p d); [apply (IH (Some d) k k' Hk) | reflexivity].
Qed.

(** A pattern that takes no character [c], before a [c] that is no
    word character, matches as it does at the end of the text. *)
Lemma coincide_barrera (c : ascii) (b : list ascii) (r : regex) :
  es_palabra c = false ->
  evita c r = true ->
  forall prev s (k k' : cont),
    (forall q s', k' q (s' ++ c :: b) = option_map (fun x => x ++ c :: b) (k q s')) ->
    coincide r prev (s ++ c :: b) k'
    = option_map (fun x => x ++ c :: b) (coincide r prev s k).
Proof.
  intros Hw. induction r as [ |d|p| |a1 IHa a2 IHb|a1 IHa a2 IHb|p|p|p];
    intros He prev s k k' Hk; cbn [coincide]; cbn [evita] in He.
  - apply Hk.
  - destruct s as [|d' s']; simpl.
    + apply negb_true_iff in He. rewrite He. reflexivity.
    + destruct (Ascii.eqb d d'); [apply Hk | reflexivity].
  - destruct s as [|d' s']; simpl.
    + apply negb_true_iff in He. rewrite He. reflexivity.
    + destruct (p d'); [apply Hk | reflexivity].
  - assert (F : es_frontera prev (s ++ c :: b) = es_frontera prev s).
    { unfold es_frontera. destruct s; simpl; [rewrite Hw|]; reflexivity. }
    rewrite F. destruct (es_frontera prev s); [apply Hk | reflexivity].
  - apply andb_true_iff in He as [H1 H2].
    apply (IHa H1). intros q s'. apply (IHb H2). assumption.
  - apply andb_true_iff in He as [H1 H2].
    rewrite (IHa H1 prev s k k' Hk), (IHb H2 prev s k k' Hk).
    destruct (coincide a1 prev s k); reflexivity.
  - apply negb_true_iff in He. apply codiciosa_barrera; assumption.
  - apply negb_true_iff in He. destruct s as [|d' s']; simpl.
    + rewrite He. reflexivity.
    + destruct (p d'); [|reflexivity].
      apply codiciosa_barrera; assumption.
  - apply negb_true_iff in He. apply perezosa_barrera; assumption.
Qed.

Lemma re_match_barrera (c : ascii) (a b : list ascii) (r : regex) (pos : nat) :
  es_palabra c = false ->
  evita c r = true ->
  pos <= length a ->
  re_match r (a ++ c :: b) pos = re_match r a pos.
Proof.
  intros Hw He Hp. unfold re_match.
  rewrite skipn_app. replace (pos - length a) with 0 by lia. simpl skipn.
  assert (Hprev : match pos with O => None | S q => nth_error (a ++ c :: b) q end
                  = match pos with O => None | S q => nth_error a q end).
  { destruct pos as [|q]; [reflexivity|]. apply nth_error_app1. lia. }
  rewrite Hprev.
  rewrite (coincide_barrera c b r Hw He _ (skipn pos a)
             (fun _ x => Some x) (fun _ x => Some x)) by reflexivity.
  destruct (coincide r _ (skipn pos a) _) as [resto|]; [|reflexivity].
  simpl. repeat rewrite length_app. simpl. f_equal. lia.
Qed.

Lemma buscar_barrera (c : ascii) (a b : list ascii) (ps : list (string * regex))
    (pos : nat) :
  es_palabra c = false ->
  forallb (fun p => evita c (snd p)) ps = true ->
  pos <= length a ->
  buscar ps (a ++ c :: b) pos = buscar ps a pos.
Proof.
  intros Hw He Hp. induction ps as [|[n r] ps IH]; unfold buscar; fold buscar;
    [reflexivity|].
  simpl in He. apply andb_true_iff in He as [H1 H2].
  rewrite (re_match_barrera c a b r pos Hw H1 Hp), (IH H2). reflexivity.
Qed.

Lemma bucle_S (pasos : nat) (texto : list ascii) (pos : nat) (tokens : list string) :
  bucle (S pasos) texto pos tokens
  = match nth_error texto pos with
    | None => Some tokens
    | Some c =>
        if es_espacio c
        then bucle pasos texto (pos + 1) tokens
        else match buscar patrones texto pos with
             | Some (token_tipo, fin) =>
                 bucle pasos texto fin (tokens ++ [token_tipo])
             | None =>
                 bucle pasos texto (pos + 1) (tokens ++ [token_error c])
             end
    end.
Proof. reflexivity. Qed.

Lemma bucle_barrera (a b : list ascii) :
  forall pasos pos tokens r,
    pos <= length a ->
    bucle pasos a pos tokens = Some r ->
    forall pasos2 r2,
      bucle pasos2 (a ++ "010"%char :: b) (length a) r = Some r2 ->
      bucle (pasos + pasos2) (a ++ "010"%char :: b) pos tokens = Some r2.
Proof.
  induction pasos as [|pasos IH]; intros pos tokens r Hp H pasos2 r2 H2.
  - simpl in H. destruct (nth_error a pos) eqn:E; [discriminate|].
    inversion H; subst. apply nth_error_None in E.
    replace pos with (length a) by lia. exact H2.
  - simpl in H. destruct (nth_error a pos) as [c|] eqn:E.
    + assert (Hlt : pos < length a) by (apply nth_error_Some; congruence).
      change (S pasos + pasos2) with (S (pasos + pasos2)). rewrite bucle_S.
      rewrite nth_error_app1 by assumption. rewrite E.
      rewrite (buscar_barrera "010"%char a b patrones pos)
        by (reflexivity || lia).
      destruct (es_espacio c); [apply (IH _ _ r); [lia | assumption..]|].
      destruct (buscar patrones a pos) as [[tipo fin]|] eqn:B.
      * apply buscar_avanza in B. apply (IH _ _ r); [lia | assumption..].
      * apply (IH _ _ r); [lia | assumption..].
    + inversion H; subst. apply nth_error_None in E.
      replace pos with (length a) by lia.
      apply (bucle_mas_pasos pasos2); [assumption | lia].
Qed.

Lemma caracteres_app (a b : string) :
  caracteres (a ++ b)%string = caracteres a ++ caracteres b.
Proof. induction a as [|c a IH]; simpl; [reflexivity | f_equal; exact IH]. Qed.

Lemma espacio_no_palabra (c : ascii) :
  es_espacio c = true -> es_palabra c = false.
Proof.
  destruct c as [[] [] [] [] [] [] [] []]; vm_compute; intros H;
    first [reflexivity | discriminate H].
Qed.

Lemma ultimo_blancos (bl : list ascii) :
  forall prev,
    palabra_en prev = false ->
    forallb es_espacio bl = true ->
    palabra_en (ultimo prev bl) = false.
Proof.
  induction bl as [|c bl IH]; intros prev Hp Hb; [assumption|].
  simpl in Hb. apply andb_true_iff in Hb as [Hc Hb].
  apply (IH (Some c)); [apply espacio_no_palabra|]; assumption.
Qed.

Lemma bucle_blancos (s : list ascii) (bl : list ascii) :
  forall pre pasos tokens,
    forallb es_espacio bl = true ->
    bucle (length bl + pasos) (pre ++ bl ++ s) (length pre) tokens
    = bucle pasos (pre ++ bl ++ s) (length pre + length bl) tokens.
Proof.
  induction bl as [|c bl IH]; intros pre pasos tokens Hb.
  - simpl. rewrite Nat.add_0_r. reflexivity.
  - simpl in Hb. apply andb_true_iff in Hb as [Hc Hb].
    change (length (c :: bl) + pasos) with (S (length bl + pasos)).
    rewrite bucle_S. rewrite nth_error_app2 by lia. rewrite Nat.sub_diag.
    simpl nth_error. cbv iota. rewrite Hc.
    specialize (IH (pre ++ [c]) pasos tokens Hb).
    rewrite <- app_assoc, length_app in IH. simpl in IH.
    simpl app. rewrite IH. simpl length. f_equal. lia.
Qed.

End Lineas.

(** X1.  The scanner works line by line: the tokens of two texts joined
    by a line feed are the tokens of the first followed by the tokens
    of the second.  No token spans a line break, and what is on one
    line does not change how another is read. *)
Theorem lexico_por_lineas (a b : string) :
  exists ta tb,
    analizador_lexico a = Some ta
    /\ analizador_lexico b = Some tb
    /\ analizador_lexico (a ++ String "010" b)%string = Some (ta ++ tb).
Proof.
  unfold analizador_lexico. rewrite caracteres_app.
  change (caracteres (String "010" b)) with ("010"%char :: caracteres b).
  set (A := caracteres a). set (B := caracteres b).
  destruct (bucle_total (length A) A 0 []) as (ta & Ha & _); [lia|].
  destruct (bucle_total (length B) B 0 []) as (tb & Hb & _); [lia|].
  simpl in Ha, Hb. exists ta, tb. repeat split; try assumption.
  rewrite length_app. simpl length.
  apply (bucle_barrera A B (length A) 0 [] ta); [lia | assumption |].
  rewrite bucle_S. rewrite nth_error_app2 by lia. rewrite Nat.sub_diag.
  simpl nth_error. cbv iota. change (es_espacio "010") with true. cbv iota.
  replace (A ++ "010"%char :: B) with ((A ++ ["010"%char]) ++ B)
    by (rewrite <- app_assoc; reflexivity).
  replace (length A + 1) with (length (A ++ ["010"%char]) + 0)
    by (rewrite length_app; simpl; lia).
  rewrite bucle_desplazado by (rewrite ultimo_app; reflexivity).
  rewrite <- (app_nil_r ta) at 1. rewrite bucle_acumula, Hb. reflexivity.
Qed.

(** X2.  Blanks at the start of the text are skipped and change
    nothing: the tokens of a text after any run of blank characters
    are the tokens of the text alone. *)
Theorem lexico_blancos_iniciales (blancos s : string) :
  forallb es_espacio (caracteres blancos) = true ->
  analizador_lexico (blancos ++ s)%string = analizador_lexico s.
Proof.
  intros Hb. unfold analizador_lexico. rewrite caracteres_app, length_app.
  pose proof (bucle_blancos (caracteres s) (caracteres blancos) []
                (length (caracteres s)) [] Hb) as H.
  simpl in H. rewrite H.
  rewrite <- (Nat.add_0_r (length (caracteres blancos))) at 1.
  apply (bucle_desplazado (caracteres blancos) (caracteres s)
           (ultimo_blancos _ None eq_refl Hb)).
Qed.

Lemma lexico_blancos_iniciales_testigo :
  analizador_lexico (String "009" (String "010" "  int x;"))
  = analizador_lexico "int x;".
Proof.
  apply (lexico_blancos_iniciales (String "009" (String "010" "  ")) "int x;").
  reflexivity.
Defined.

(** X3.  Once [open] and [read] have given the text of the file,
    [leer_codigo_fuente] returns, and of the object it has assigned
    [flujo_entrada] alone: the stack, the trace, the error flag and
    the tree are as they were, so that on the object just made by
    [__init__] the run starts from [inicial].  The input it leaves is
    the tokens of the text followed by one [$]; each token is the name
    of a pattern or an error token, so [$] occurs only as the last
    element: a [$] in the text is read as [ERROR($)]. *)
Theorem leer_codigo_fuente_marca_final (a : Analizador) (codigo_fuente : string) :
  exists tokens a',
    leer_codigo_fuente a (Some codigo_fuente) = Some (Leido a')
    /\ analizador_lexico codigo_fuente = Some tokens
    /\ flujo_entrada a' = tokens ++ ["$"%string]
    /\ pila a' = pila a
    /\ salida_proceso a' = salida_proceso a
    /\ error_ocurrido a' = error_ocurrido a
    /\ arbol a' = arbol a
    /\ (a = nuevo -> a' = inicial (tokens ++ ["$"%string]))
    /\ Forall (fun tok => In tok (map fst patrones) \/ exists c, tok = token_error c)
         tokens
    /\ ~ In "$"%string tokens.
Proof.
  unfold leer_codigo_fuente.
  destruct (analizador_lexico codigo_fuente) as [tokens|] eqn:L.
  2:{ unfold analizador_lexico in L.
      destruct (bucle_total (length (caracteres codigo_fuente))
                  (caracteres codigo_fuente) 0 []) as (n & Hn & _); [lia|].
      congruence. }
  exists tokens, (con_flujo a (tokens ++ ["$"%string])).
  do 7 (split; [reflexivity|]).
  split; [intros ->; reflexivity|].
  assert (F : Forall (fun tok => In tok (map fst patrones)
                                 \/ exists c, tok = token_error c) tokens).
  { unfold analizador_lexico in L.
    apply (bucle_tokens _ (caracteres codigo_fuente)) with (4 := L).
    - intros posicion tipo fin B. left.
      apply buscar_descompone in B as (antes & patron & despues & E & _ & _).
      rewrite E, map_app. apply in_or_app. right. left. reflexivity.
    - intros c. right. eauto.
    - constructor. }
  split; [exact F|].
  intros Hin. rewrite Forall_forall in F. destruct (F _ Hin) as [H|[c H]].
  - simpl in H. repeat (destruct H as [H|H]; [discriminate H|]). exact H.
  - discriminate H.
Qed.

Lemma leer_codigo_fuente_marca_final_testigo :
  leer_codigo_fuente nuevo (Some "int x; $"%string)
  = Some (Leido (inicial ["tipo"; "identificador"; ";"; "ERROR($)"; "$"]%string)).
Proof.
  destruct (leer_codigo_fuente_marca_final nuevo "int x; $")
    as (tokens & a' & L & S & _ & _ & _ & _ & _ & Hn & _).
  rewrite L, (Hn eq_refl). vm_compute in S. inversion S; subst tokens.
  reflexivity.
Defined.

(** ** The run of the automaton *)

Section Corrida_general.

Variable t : Tabla.

Lemma desplazamientos_app (l1 l2 : list (string * string * string)) :
  desplazamientos (l1 ++ l2) = desplazamientos l1 + desplazamientos l2.
Proof. unfold desplazamientos. rewrite filter_app, length_app. reflexivity. Qed.

Lemma avance_refl (a : Analizador) : avance a a.
Proof. exists [], []. rewrite app_nil_r. auto. Qed.

Lemma avance_registrar (a0 a : Analizador) (accion : string) :
  avance a0 a -> startswith "d" accion = false -> avance a0 (registrar a accion).
Proof.
  intros (c & n & Hf & Hs & Hl) Hd.
  exists c, (n ++ [(obtener_pila_como_cadena a, entrada_como_cadena a, accion)]).
  simpl. rewrite Hs, <- app_assoc, desplazamientos_app.
  unfold desplazamientos at 2. simpl. rewrite Hd. simpl.
  split; [assumption|]. split; [reflexivity | lia].
Qed.

Lemma avance_manejar_error (a0 a : Analizador) (estado : Z) (token : string) :
  avance a0 a -> avance a0 (manejar_error a estado token).
Proof.
  intros (c & n & Hf & Hs & Hl).
  exists c, (n ++ [(obtener_pila_como_cadena a, entrada_como_cadena a,
                    mensaje_error estado token)]).
  simpl. rewrite Hs, <- app_assoc, desplazamientos_app.
  unfold desplazamientos at 2. simpl.
  split; [assumption|]. split; [reflexivity | lia].
Qed.

Lemma transicion_avance (a0 a a' : Analizador) :
  avance a0 a -> transicion t a a' -> avance a0 a'.
Proof.
  intros Ha T.
  destruct T as [accion e tok resto _ Hd _ Hfl
                |accion numero regla cab cuerpo hijos p1 ea e _ Hd _ _ _ _ _ _ _ _
                |accion numero regla cab cuerpo hijos p1 ea _ Hd _ _ _ _ _ _ _ _].
  - destruct Ha as (c & n & Hf & Hs & Hl).
    exists (c ++ [tok]),
      (n ++ [(obtener_pila_como_cadena a, entrada_como_cadena a, accion)]).
    simpl. rewrite Hs, Hf, Hfl, <- !app_assoc, desplazamientos_app, length_app.
    unfold desplazamientos at 2. simpl. rewrite Hd. simpl.
    split; [reflexivity|]. split; [reflexivity | lia].
  - apply (avance_registrar a0 a accion Ha) in Hd.
    destruct Hd as (c & n & Hf & Hs & Hl). exists c, n. simpl in *.
    split; [assumption|]. split; assumption.
  - apply avance_manejar_error.
    apply (avance_registrar a0 a accion Ha) in Hd.
    destruct Hd as (c & n & Hf & Hs & Hl). exists c, n. simpl in *.
    split; [assumption|]. split; assumption.
Qed.

Lemma desenlace_avance (a0 a : Analizador) (r : Resultado) :
  avance a0 a ->
  desenlace t a r ->
  match r with
  | Retorna a' | Termina a' => avance a0 a'
  | Falla _ => True
  end.
Proof.
  intros Ha D. destruct D as [_|estado accion _ _ Hd _ _|accion _ Hd _ _].
  - apply avance_registrar; [assumption | reflexivity].
  - apply avance_manejar_error, avance_registrar; assumption.
  - apply avance_registrar; assumption.
Qed.

Lemma transicion_raiz (a0 a a' : Analizador) :
  raiz_fija a0 a -> transicion t a a' -> raiz_fija a0 a'.
Proof.
  intros [H1 H2] T.
  destruct T as [accion e tok resto _ _ _ _
                |accion numero regla cab cuerpo hijos p1 ea e _ _ _ _ _ _ _ _ _ _
                |accion numero regla cab cuerpo hijos p1 ea _ _ _ _ _ _ _ _ _ _];
    try (split; simpl; assumption).
  unfold registrar_raiz. split; simpl.
  - intros raiz Hr. rewrite (H1 raiz Hr). reflexivity.
  - intros raiz Hr. destruct (arbol a) as [x|] eqn:E; simpl in Hr.
    + apply H2. assumption.
    + destruct (String.eqb cab "<programa>") eqn:Ec; [|discriminate].
      apply String.eqb_eq in Ec. inversion Hr; subst. right. eauto.
Qed.

Lemma desenlace_raiz (a0 a : Analizador) (r : Resultado) :
  raiz_fija a0 a ->
  desenlace t a r ->
  match r with
  | Retorna a' | Termina a' => raiz_fija a0 a'
  | Falla _ => True
  end.
Proof. intros Ha D. destruct D; exact Ha. Qed.

(** The passes of a run, taken in two parts. *)
Lemma iterar_suma (j m : nat) :
  forall a0,
    iterar (j + m) t a0
    = match iterar j t a0 with
      | Some c => iterar m t c
      | None => None
      end.
Proof.
  induction j as [|j IH]; intros a0; [reflexivity|].
  change (S j + m) with (S (j + m)). simpl.
  destruct (error_ocurrido a0); [reflexivity|].
  destruct (paso t a0) as [a1|]; [apply IH | reflexivity].
Qed.

(** No pass follows the one that ends the run. *)
Lemma iterar_hasta_el_fin (n k : nat) (a0 b b' : Analizador) :
  iterar n t a0 = Some b ->
  error_ocurrido b = true \/ (exists r, paso t b = Fin r) ->
  iterar (S k) t a0 = Some b' ->
  k < n.
Proof.
  intros Hb Hfin Hk. destruct (Nat.lt_ge_cases k n) as [|Hge]; [assumption|].
  exfalso. replace (S k) with (n + S (k - n)) in Hk by lia.
  rewrite iterar_suma, Hb in Hk. simpl in Hk.
  destruct Hfin as [E|[r P]].
  - rewrite E in Hk. discriminate.
  - rewrite P in Hk. destruct (error_ocurrido b); discriminate.
Qed.

Lemma reduce_a_programa_unico (b b' : Analizador) (r1 r2 : Valor) :
  reduce_a_programa t b b' r1 -> reduce_a_programa t b b' r2 -> r1 = r2.
Proof.
  intros (? & ? & ? & ? & ? & ? & ? & ? & H1) (? & ? & ? & ? & ? & ? & ? & ? & H2).
  destruct H1 as (_ & _ & _ & _ & _ & _ & _ & _ & _ & _ & _ & P1).
  destruct H2 as (_ & _ & _ & _ & _ & _ & _ & _ & _ & _ & _ & P2).
  rewrite P1 in P2. inversion P2. reflexivity.
Qed.

(** A pass records a tree exactly when it is a reduction to
    [<programa>] with a goto, and the tree is the node it pushes. *)
Lemma paso_registra (b b' : Analizador) (raiz : Valor) :
  arbol b = None ->
  paso t b = Sigue b' ->
  (arbol b' = Some raiz <-> reduce_a_programa t b b' raiz).
Proof.
  intros N P. apply paso_transicion in P.
  destruct P as [accion e tok resto Hac Hd Hi Hf
                |accion numero regla cab cuerpo hijos p1 ea e
                   Hac Hd Hr Hi Hn Hg Hs Rh Pe Go
                |accion numero regla cab cuerpo hijos p1 ea
                   Hac Hd Hr Hi Hn Hg Hs Rh Pe Go]; simpl.
  - split; [congruence|].
    intros (ac & nu & re & cu & hi & q & ea & e' & A & D & _).
    rewrite Hac in A. inversion A; subst ac. congruence.
  - rewrite N. unfold registrar_raiz. simpl. split.
    + destruct (String.eqb cab "<programa>") eqn:Ec; [|discriminate].
      apply String.eqb_eq in Ec. subst cab. intros H. inversion H; subst raiz.
      exists accion, numero, regla, cuerpo, hijos, p1, ea, e.
      repeat split; assumption.
    + intros (ac & nu & re & cu & hi & q & ea' & e' & A & _ & _ & I & _ & G & S
              & R & _ & _ & Hraiz & _).
      rewrite Hac in A. inversion A; subst ac.
      rewrite Hi in I. inversion I; subst nu.
      rewrite Hg in G. inversion G; subst re.
      rewrite Hs in S. inversion S; subst cab cu.
      rewrite Rh in R. inversion R; subst hi q.
      rewrite Hraiz. reflexivity.
  - split; [congruence|].
    intros (ac & nu & re & cu & hi & q & ea' & e' & A & _ & _ & I & _ & G & S
            & R & Pe' & Go' & _).
    rewrite Hac in A. inversion A; subst ac.
    rewrite Hi in I. inversion I; subst nu.
    rewrite Hg in G. inversion G; subst re.
    rewrite Hs in S. inversion S; subst cab cu.
    rewrite Rh in R. inversion R; subst hi q.
    rewrite Pe in Pe'. inversion Pe'; subst ea'.
    rewrite Go in Go'. discriminate.
Qed.

Lemma paso_conserva_la_raiz (b b' : Analizador) (raiz : Valor) :
  arbol b = Some raiz -> paso t b = Sigue b' -> arbol b' = Some raiz.
Proof.
  intros H P. apply paso_transicion in P.
  assert (F : raiz_fija b b) by (split; auto).
  destruct (transicion_raiz b b b' F P) as [K _]. apply K. exact H.
Qed.

(** After [n] passes either no tree is recorded and no pass was a
    reduction to [<programa>] with a goto, or the tree recorded is the
    node pushed by the first such pass. *)
Lemma iterar_raiz (a0 : Analizador) :
  arbol a0 = None ->
  forall n a,
    iterar n t a0 = Some a ->
    (arbol a = None
     /\ forall j c c' x,
          j < n ->
          iterar j t a0 = Some c ->
          iterar (S j) t a0 = Some c' ->
          ~ reduce_a_programa t c c' x)
    \/ (exists raiz k,
          arbol a = Some raiz /\ k < n /\ primera_reduccion_a_programa t a0 k raiz).
Proof.
  intros N. induction n as [|n IH]; intros a H.
  - inversion H; subst. left. split; [assumption | intros; lia].
  - pose proof H as H'. apply iterar_ultimo in H as (b & Hb & Eb & Pb).
    destruct (IH b Hb) as [[Nb Hnone]|(raiz & k & Rb & Hk & Hp)].
    + destruct (arbol a) as [raiz|] eqn:Ra.
      * right. exists raiz, n. split; [reflexivity|]. split; [lia|].
        exists b, a. split; [exact Hb|]. split; [exact H'|].
        split; [apply (paso_registra b a raiz Nb Pb); exact Ra | exact Hnone].
      * left. split; [reflexivity|]. intros j c c' x Hj Hc Hc' R.
        destruct (Nat.eq_dec j n) as [->|Hne].
        -- rewrite Hb in Hc. inversion Hc; subst c.
           rewrite H' in Hc'. inversion Hc'; subst c'.
           apply (paso_registra b a x Nb Pb) in R. congruence.
        -- apply (Hnone j c c' x); [lia | assumption..].
    + right. exists raiz, k. split; [|split; [lia | exact Hp]].
      apply (paso_conserva_la_raiz b a raiz Rb Pb).
Qed.

Lemma primera_reduccion_unica (a0 : Analizador) (k1 k2 : nat) (r1 r2 : Valor) :
  primera_reduccion_a_programa t a0 k1 r1 ->
  primera_reduccion_a_programa t a0 k2 r2 ->
  r1 = r2.
Proof.
  intros (b1 & b1' & B1 & B1' & R1 & N1) (b2 & b2' & B2 & B2' & R2 & N2).
  destruct (Nat.lt_trichotomy k1 k2) as [L|[E|L]].
  - exfalso. apply (N2 k1 b1 b1' r1 L B1 B1' R1).
  - subst k2. rewrite B1 in B2. inversion B2; subst b2.
    rewrite B1' in B2'. inversion B2'; subst b2'.
    apply (reduce_a_programa_unico b1 b1' r1 r2 R1 R2).
  - exfalso. apply (N1 k2 b2 b2' r2 L B2 B2' R2).
Qed.



End Corrida_general.

(** X4.  A token that is no column of the table, or whose cell in the
    row of the current state is blank, is a syntax error and never a
    crash: the pass writes the entry with the action [error] and the
    entry with the message for that state and that token, sets the
    error flag and [analizar] returns, with the stack and the input
    untouched.  This is what becomes of the error tokens of the
    scanner. *)
Theorem token_sin_accion (t : Tabla) (a : Analizador) (estado : Z) (v : nat) :
  error_ocurrido a = false ->
  obtener_estado_actual a = Bien estado ->
  en_columnas t (token_actual a) = false
  \/ loc t estado (token_actual a) = Some Nula ->
  exists a',
    analizar (S v) t a = Some (Retorna a')
    /\ error_ocurrido a' = true
    /\ pila a' = pila a
    /\ flujo_entrada a' = flujo_entrada a
    /\ salida_proceso a'
       = salida_proceso a
         ++ [(obtener_pila_como_cadena a, entrada_como_cadena a, "error"%string);
             (obtener_pila_como_cadena a, entrada_como_cadena a,
              mensaje_error estado (token_actual a))].
Proof.
  intros E He Hc.
  assert (A : obtener_accion t estado (token_actual a) = Bien "error"%string).
  { unfold obtener_accion. destruct Hc as [Hc|Hc]; rewrite Hc; [reflexivity|].
    destruct (en_columnas t (token_actual a)); reflexivity. }
  eexists. split.
  - simpl. rewrite E. unfold paso, o_falla. rewrite He, A. reflexivity.
  - repeat split. simpl. rewrite <- app_assoc. reflexivity.
Qed.

Lemma token_sin_accion_testigo :
  exists a',
    analizar 1 tabla_definiciones (inicial ["ERROR(@)"; "$"]%string)
    = Some (Retorna a')
    /\ error_ocurrido a' = true
    /\ salida_proceso a'
       = [("0", "ERROR(@) $", "error");
          ("0", "ERROR(@) $", mensaje_error 0 "ERROR(@)")]%string.
Proof.
  destruct (token_sin_accion tabla_definiciones
              (inicial ["ERROR(@)"; "$"]%string) 0 0 eq_refl eq_refl
              (or_introl eq_refl))
    as (a' & H & He & _ & _ & Hs).
  exists a'. repeat split; assumption.
Defined.

(** X5.  A run takes the input only from its front and only by
    shifting: when [analizar] returns or the program exits, the input
    left is a suffix of the input it started with, the trace is the
    trace it started with followed by new entries, and the number of
    tokens taken is the number of new entries whose action is a
    shift.  Earlier entries of the trace are never changed. *)
Theorem la_entrada_se_consume_al_desplazar (t : Tabla) (v : nat)
    (a0 : Analizador) (r : Resultado) :
  analizar v t a0 = Some r ->
  match r with
  | Retorna a | Termina a =>
      exists consumidos nuevas,
        flujo_entrada a0 = consumidos ++ flujo_entrada a
        /\ salida_proceso a = salida_proceso a0 ++ nuevas
        /\ length consumidos = desplazamientos nuevas
  | Falla _ => True
  end.
Proof.
  intros H. apply analizar_iterar in H as (n & b & Hb & Hr).
  assert (Hav : avance a0 b).
  { apply (iterar_invariante t (avance a0) a0 (avance_refl a0)) with (n := n);
      [|assumption].
    intros x y Hx _. apply transicion_avance. assumption. }
  destruct Hr as [[_ ->]|[_ P]]; [exact Hav|].
  apply paso_fin in P as [[e ->]|D]; [exact I|].
  apply (desenlace_avance t a0 b r Hav D).
Qed.

Lemma la_entrada_se_consume_al_desplazar_testigo :
  exists a consumidos nuevas,
    analizar 20 tabla_definiciones
      (inicial ["tipo"; "identificador"; ";"; "$"]%string)
    = Some (Retorna a)
    /\ ["tipo"; "identificador"; ";"; "$"]%string = consumidos ++ flujo_entrada a
    /\ salida_proceso a = [] ++ nuevas
    /\ length consumidos = desplazamientos nuevas.
Proof.
  eassert (E : analizar 20 tabla_definiciones
                 (inicial ["tipo"; "identificador"; ";"; "$"]%string)
               = Some (Retorna _)) by (vm_compute; reflexivity).
  destruct (la_entrada_se_consume_al_desplazar _ _ _ _ E)
    as (c & n & H1 & H2 & H3).
  eexists. exists c, n. split; [exact E|]. split; [exact H1|].
  split; [exact H2 | exact H3].
Defined.

(** X6.  The tree that a run records is the first node [<programa>]
    that a reduction pushes with a goto.  On an object with no tree
    recorded, the run ends with the tree [raiz] recorded exactly when
    one of its passes is a reduction by a rule of head [<programa>]
    whose goto exists, [raiz] being the node that the first such pass
    pushed under its goto state; with no such pass no tree is
    recorded.  A tree already recorded is kept: no later reduction
    replaces it. *)
Theorem la_raiz_es_el_primer_programa (t : Tabla) (v : nat) (a0 : Analizador)
    (r : Resultado) :
  analizar v t a0 = Some r ->
  match r with
  | Retorna a | Termina a =>
      (forall raiz, arbol a0 = Some raiz -> arbol a = Some raiz)
      /\ (arbol a0 = None ->
          forall raiz,
            arbol a = Some raiz
            <-> exists k, primera_reduccion_a_programa t a0 k raiz)
  | Falla _ => True
  end.
Proof.
  intros H. apply analizar_iterar in H as (n & b & Hb & Hr).
  assert (F1 : forall raiz, arbol a0 = Some raiz -> arbol b = Some raiz).
  { assert (Hav : raiz_fija a0 b).
    { apply (iterar_invariante t (raiz_fija a0) a0) with (n := n);
        [split; auto | | assumption].
      intros x y Hx _. apply transicion_raiz. assumption. }
    apply Hav. }
  assert (Hfin : error_ocurrido b = true \/ (exists r', paso t b = Fin r')).
  { destruct Hr as [[E _]|[_ P]]; [left; exact E | right; eauto]. }
  assert (F2 : arbol a0 = None ->
               forall raiz,
                 arbol b = Some raiz
                 <-> exists k, primera_reduccion_a_programa t a0 k raiz).
  { intros N raiz.
    destruct (iterar_raiz t a0 N n b Hb)
      as [[Nb Hnone]|(raiz' & k & Rb & Hk & Hp)].
    - split; [rewrite Nb; discriminate|].
      intros (k & c & c' & Hc & Hc' & R & _). exfalso.
      apply (Hnone k c c' raiz); try assumption.
      apply (iterar_hasta_el_fin t n k a0 b c' Hb Hfin Hc').
    - split.
      + intros Hx. rewrite Rb in Hx. inversion Hx; subst. exists k. exact Hp.
      + intros (k2 & Hp2). rewrite Rb. f_equal.
        apply (primera_reduccion_unica t a0 k k2 raiz' raiz Hp Hp2). }
  assert (G : forall a, arbol a = arbol b ->
                (forall raiz, arbol a0 = Some raiz -> arbol a = Some raiz)
                /\ (arbol a0 = None ->
                    forall raiz,
                      arbol a = Some raiz
                      <-> exists k, primera_reduccion_a_programa t a0 k raiz)).
  { intros a Ha. rewrite Ha. split; assumption. }
  destruct Hr as [[_ ->]|[_ P]]; [apply G; reflexivity|].
  apply paso_fin in P as [[e ->]|D]; [exact I|].
  apply desenlace_pila in D. destruct r as [a|a|e]; [| |exact I];
    apply G; tauto.
Qed.

Lemma la_raiz_es_el_primer_programa_testigo :
  exists a raiz,
    analizar 20 tabla_definiciones (inicial ["$"%string]) = Some (Retorna a)
    /\ arbol a = Some raiz
    /\ raiz = Arbol "<programa>" [Arbol "<Definiciones>" []]
    /\ exists k, primera_reduccion_a_programa tabla_definiciones
                   (inicial ["$"%string]) k raiz.
Proof.
  eassert (E : analizar 20 tabla_definiciones (inicial ["$"%string])
               = Some (Retorna _)) by (vm_compute; reflexivity).
  pose proof (la_raiz_es_el_primer_programa _ _ _ _ E) as [_ H].
  eexists. eexists. split; [exact E|]. split; [reflexivity|].
  split; [reflexivity|].
  apply (H eq_refl). reflexivity.
Defined.



(** ** Failures of a pass *)

Section Fallos.

Variable t : Tabla.

Lemma desapilar_corto (n : nat) :
  forall p hijos, length p < 2 * n -> desapilar n p hijos = Lanza PilaVacia.
Proof.
  induction n as [|n IH]; intros p hijos H; [simpl in H; lia|].
  destruct p as [|x [|y p]]; try reflexivity.
  simpl. apply IH. simpl in H. lia.
Qed.

Lemma desapilar_largo (n : nat) :
  forall p hijos,
    2 * n <= length p ->
    exists hs, desapilar n p hijos = Bien (hs, skipn (2 * n) p).
Proof.
  induction n as [|n IH]; intros p hijos H; [simpl; eauto|].
  destruct p as [|x [|y p]]; simpl in H; try lia.
  destruct (IH p (y :: hijos)) as (hs & Hh); [lia|].
  exists hs. replace (2 * S n) with (S (S (2 * n))) by lia.
  simpl desapilar. simpl skipn. exact Hh.
Qed.

Lemma reducir_por_regla (a : Analizador) (accion : string) (numero : Z)
    (regla cabecera cuerpo : string) :
  int_py (desde_1 accion) = Some numero ->
  numero <> 0%Z ->
  obtener_regla numero = Some regla ->
  split_sep " ::= " regla = [cabecera; cuerpo] ->
  reducir t a accion = reducir_regla t a cabecera cuerpo.
Proof.
  intros Hi Hn Hr Hs. unfold reducir. rewrite Hi, Hr, Hs.
  destruct (Z.eqb numero 0) eqn:E; [|reflexivity].
  apply Z.eqb_eq in E. contradiction.
Qed.

Lemma primer_entero_falla (p : Pila) (x : Excepcion) :
  primer_entero p = Lanza x -> x = SinEstado.
Proof.
  induction p as [|[e|v h] p IH]; simpl; intros H;
    [inversion H; reflexivity | discriminate | auto].
Qed.

Lemma obtener_goto_falla (e : Z) (nt : string) (x : Excepcion) :
  obtener_goto t e nt = Lanza x ->
  x = KeyError \/ x = ValueError \/ x = OverflowError.
Proof.
  unfold obtener_goto. destruct (en_columnas t _); [|discriminate].
  destruct (loc t e _) as [g|]; [|intros H; inversion H; auto].
  destruct g as [|texto|escrito [z|]]; simpl; try discriminate.
  - destruct (int_py texto); simpl; [discriminate|]. intros H. inversion H. auto.
  - intros H. inversion H. auto.
Qed.

End Fallos.

(** X8.  A reduction (by a rule other than 0) raises the exception of
    the empty stack exactly when the stack holds fewer than two
    elements per symbol of the right-hand side; no check is made
    before the pops. *)
Theorem reducir_pila_vacia (t : Tabla) (a : Analizador) (accion : string)
    (numero : Z) (regla cabecera cuerpo : string) :
  int_py (desde_1 accion) = Some numero ->
  numero <> 0%Z ->
  obtener_regla numero = Some regla ->
  split_sep " ::= " regla = [cabecera; cuerpo] ->
  (reducir t a accion = Fin (Falla PilaVacia)
   <-> length (pila a) < 2 * longitud_cuerpo cuerpo).
Proof.
  intros Hi Hn Hr Hs.
  rewrite (reducir_por_regla t a accion numero regla cabecera cuerpo Hi Hn Hr Hs).
  unfold reducir_regla, o_falla, recoger_hijos, longitud_cuerpo.
  destruct (String.eqb (strip cuerpo) cuerpo_vacio).
  - split; [|simpl; lia]. intros H.
    destruct (primer_entero (pila a)) as [ea|x] eqn:P.
    2:{ apply primer_entero_falla in P. subst. discriminate. }
    destruct (obtener_goto t ea cabecera) as [[e|]|x] eqn:G; try discriminate.
    apply obtener_goto_falla in G. inversion H. subst.
      destruct G as [G|[G|G]]; discriminate.
  - set (n := length (split_blancos (strip cuerpo))).
    destruct (Nat.lt_ge_cases (length (pila a)) (2 * n)) as [Hlt|Hge].
    + rewrite (desapilar_corto n _ _ Hlt). split; [intros _; assumption | reflexivity].
    + destruct (desapilar_largo n (pila a) [] Hge) as (hs & ->).
      split; [|lia]. intros H.
      destruct (primer_entero _) as [ea|x] eqn:P.
      2:{ apply primer_entero_falla in P. subst. discriminate. }
      destruct (obtener_goto t ea cabecera) as [[e|]|x] eqn:G; try discriminate.
      apply obtener_goto_falla in G. inversion H. subst.
      destruct G as [G|[G|G]]; discriminate.
Qed.

Lemma reducir_pila_vacia_testigo :
  reducir tabla_definiciones (inicial ["$"%string]) "r1" = Fin (Falla PilaVacia).
Proof.
  apply (proj2 (reducir_pila_vacia tabla_definiciones (inicial ["$"%string]) "r1"
                  1 "<programa> ::= <Definiciones>" "<programa>" "<Definiciones>"
                  eq_refl ltac:(discriminate) eq_refl eq_refl)).
  vm_compute. lia.
Defined.

(** X9.  The rules are those numbered 0 to 52: [reglas] has an entry
    for exactly these numbers, and a reduction by any other number
    raises [KeyError] whatever the stack and the table are. *)
Theorem regla_fuera_de_rango :
  (forall numero, obtener_regla numero = None <-> ~ regla_definida numero)
  /\ forall (t : Tabla) (a : Analizador) (accion : string) (numero : Z),
       int_py (desde_1 accion) = Some numero ->
       ~ regla_definida numero ->
       reducir t a accion = Fin (Falla KeyError).
Proof.
  assert (R : forall numero, obtener_regla numero = None <-> ~ regla_definida numero).
  { intros numero. unfold regla_definida, obtener_regla, reglas. cbn [find fst].
    split.
    - intros H Hd.
      repeat (match type of H with
              | context [Z.eqb ?k numero] =>
                  destruct (Z.eqb_spec k numero); [discriminate H|]
              end).
      lia.
    - intros Hd.
      repeat (match goal with
              | |- context [Z.eqb ?k numero] =>
                  destruct (Z.eqb_spec k numero); [exfalso; apply Hd; lia|]
              end).
      reflexivity. }
  split; [exact R|].
  intros t a accion numero Hi Hd. unfold reducir. rewrite Hi.
  destruct (Z.eqb numero 0) eqn:E.
  - apply Z.eqb_eq in E. exfalso. apply Hd. unfold regla_definida. lia.
  - rewrite (proj2 (R numero) Hd). reflexivity.
Qed.



(** X11.  A shift with nothing left in the input list raises
    [IndexError]: the token read is then the default [$], the node and
    the state are pushed, and [pop(0)] fails.  This is what a second
    shift of the end marker does, and a shift in a run started before
    any text was read. *)
Theorem desplazar_sin_entrada (t : Tabla) (a : Analizador) (estado : Z)
    (accion : string) (e : Z) (v : nat) :
  error_ocurrido a = false ->
  obtener_estado_actual a = Bien estado ->
  flujo_entrada a = [] ->
  obtener_accion t estado "$" = Bien accion ->
  startswith "d" accion = true ->
  int_py (desde_1 accion) = Some e ->
  analizar (S v) t a = Some (Falla IndexError).
Proof.
  intros E He Hf Ha Hd Hi. simpl. rewrite E.
  unfold paso, o_falla, token_actual. rewrite He, Hf, Ha, Hd.
  unfold desplazar. rewrite Hi. simpl. rewrite Hf. reflexivity.
Qed.

Lemma desplazar_sin_entrada_testigo :
  analizar 1 tabla_desplaza_fin (inicial []) = Some (Falla IndexError)
  /\ analizar 2 tabla_desplaza_fin (inicial ["$"%string])
     = Some (Falla IndexError).
Proof.
  split.
  - apply (desplazar_sin_entrada tabla_desplaza_fin (inicial []) 0 "d1" 1 0);
      reflexivity.
  - vm_compute. reflexivity.
Defined.

(** X12.  A cell that starts with [d] or with [r] and is not followed
    by an integer is not a syntax error: the pass writes its trace
    entry and [int] raises [ValueError]. *)
Theorem accion_mal_formada (t : Tabla) (a : Analizador) (accion : string)
    (v : nat) :
  error_ocurrido a = false ->
  accion_de t a = Bien accion ->
  startswith "d" accion = true \/ startswith "r" accion = true ->
  int_py (desde_1 accion) = None ->
  analizar (S v) t a = Some (Falla ValueError).
Proof.
  intros E Hac Hdr Hi. simpl. rewrite E.
  unfold accion_de, ligar in Hac.
  destruct (obtener_estado_actual a) as [estado|] eqn:He; [|discriminate].
  unfold paso, o_falla. rewrite He, Hac.
  destruct (startswith "d" accion) eqn:Hd.
  - unfold desplazar. rewrite Hi. reflexivity.
  - destruct Hdr as [Hdr|Hdr]; [discriminate|]. rewrite Hdr.
    unfold reducir. rewrite Hi. reflexivity.
Qed.

Lemma accion_mal_formada_testigo :
  analizar 1 tabla_mal_formada (inicial ["$"%string]) = Some (Falla ValueError).
Proof.
  apply (accion_mal_formada tabla_mal_formada (inicial ["$"%string]) "reduce" 0);
    try reflexivity.
  right. reflexivity.
Defined.

(** ** The report files *)

Section Informes.

Lemma append_assoc (a b c : string) : ((a ++ b) ++ c = a ++ (b ++ c))%string.
Proof. induction a as [|x a IH]; simpl; [reflexivity | f_equal; exact IH]. Qed.

Lemma append_nil_r (a : string) : (a ++ "" = a)%string.
Proof. induction a as [|x a IH]; simpl; [reflexivity | f_equal; exact IH]. Qed.





Lemma concat_vacio_cons (x : string) (l : list string) :
  String.concat "" (x :: l) = (x ++ String.concat "" l)%string.
Proof.
  destruct l as [|y l]; simpl; [rewrite append_nil_r|]; reflexivity.
Qed.

Lemma concat_vacio_app (l1 l2 : list string) :
  String.concat "" (l1 ++ l2)
  = (String.concat "" l1 ++ String.concat "" l2)%string.
Proof.
  induction l1 as [|x l1 IH]; [reflexivity|].
  change ((x :: l1) ++ l2) with (x :: (l1 ++ l2)).
  rewrite !concat_vacio_cons, IH, append_assoc. reflexivity.
Qed.

(** The text written for a tree of [Arbol] objects: one line per node,
    in pre-order, each indented by two blanks per level; it is written
    when the interpreter allows one nested call per level of the tree,
    and the call raises [RecursionError] otherwise. *)
Lemma generar_salida_arbol_preorden (v : Valor) :
  es_arbol v = true ->
  forall marcos nivel,
    generar_salida_arbol marcos v nivel
    = if profundidad v <=? marcos
      then Escrito (String.concat "" (map linea_arbol (preorden v nivel)))
      else RecursionError.
Proof.
  induction v as [e|valor hijos IH] using Valor_ind_hijos; [discriminate|].
  intros Hh [|m] nivel; [reflexivity|].
  simpl in Hh. simpl generar_salida_arbol. simpl preorden.
  rewrite map_cons, concat_vacio_cons.
  change (linea_arbol (nivel, valor))
    with (sangria nivel ++ valor ++ salto)%string.
  change (profundidad (Arbol valor hijos) <=? S m)
    with (list_max (map profundidad hijos) <=? m).
  generalize (sangria nivel ++ valor ++ salto)%string as salida.
  induction IH as [|h r Hh1 _ IHr]; intros salida.
  - simpl. rewrite append_nil_r. reflexivity.
  - simpl in Hh. apply andb_true_iff in Hh as [Hx Hr].
    simpl por_hijo. rewrite (Hh1 Hx m (nivel + 1)).
    change (list_max (map profundidad (h :: r)))
      with (Nat.max (profundidad h) (list_max (map profundidad r))).
    destruct (Nat.leb_spec (profundidad h) m) as [Lh|Lh].
    + rewrite (IHr Hr).
      destruct (Nat.leb_spec (list_max (map profundidad r)) m) as [Lr|Lr];
        destruct (Nat.leb_spec
                    (Nat.max (profundidad h) (list_max (map profundidad r))) m);
        try lia; [|reflexivity].
      simpl flat_map. rewrite map_app, concat_vacio_app, append_assoc.
      reflexivity.
    + destruct (Nat.leb_spec
                  (Nat.max (profundidad h) (list_max (map profundidad r))) m);
        [lia | reflexivity].
Qed.

Variable t : Tabla.

Lemma hijos_sanos (pares : list (Valor * Valor)) :
  Forall par_bien_formado pares ->
  Forall (fun v => valor_sano v = true) (aplanar pares) ->
  forallb es_arbol (rev (map snd pares)) = true.
Proof.
  intros Hb Hs. apply forallb_forall. intros x Hx.
  apply in_rev, in_map_iff in Hx as ([e nd] & <- & Hin).
  rewrite Forall_forall in Hb, Hs.
  destruct (Hb _ Hin) as [_ Hnd]. simpl in *.
  assert (Hv : valor_sano nd = true).
  { apply Hs. unfold aplanar. apply in_flat_map.
    exists (e, nd). simpl. auto. }
  destruct nd; [discriminate | exact Hv].
Qed.

Lemma transicion_sana (a a' : Analizador) :
  sana a -> error_ocurrido a = false -> transicion t a a' -> sana a'.
Proof.
  intros (Hf & Hs & Hr) E T. split; [apply (transicion_forma t a a' Hf E T)|].
  destruct Hf as [[_ Ha]|[E' _]]; [|congruence].
  destruct T as [accion e tok resto _ _ _ _
                |accion numero regla cab cuerpo hijos p1 ea e _ _ _ _ _ _ _ Rh _ _
                |accion numero regla cab cuerpo hijos p1 ea _ _ _ _ _ _ _ Rh _ _].
  - simpl. split; [|assumption]. repeat constructor. assumption.
  - apply recoger_hijos_pares in Rh as (pares & _ & Hp & ->).
    rewrite Hp in Ha, Hs. apply alterna_pares in Ha as [_ Hb].
    apply Forall_app in Hs as [Hs1 Hs2].
    pose proof (hijos_sanos pares Hb Hs1) as Hh.
    simpl. split; [repeat constructor; assumption|].
    intros raiz. unfold registrar_raiz.
    destruct (es_none (arbol a) && String.eqb cab "<programa>");
      [|apply Hr].
    intros H. inversion H; subst. exact Hh.
  - apply recoger_hijos_pares in Rh as (pares & _ & Hp & ->).
    rewrite Hp in Ha, Hs. apply alterna_pares in Ha as [_ Hb].
    apply Forall_app in Hs as [Hs1 Hs2].
    pose proof (hijos_sanos pares Hb Hs1) as Hh.
    simpl. split; [repeat constructor; assumption | assumption].
Qed.

End Informes.

(** X13.  The dump of the tree never meets a value that is no
    [Arbol]: the tree that a run from the stack [0] records has only
    [Arbol] nodes, so [generar_salida_arbol] raises no [AttributeError]
    on it.  When the interpreter allows one nested call per level of
    the tree, the text is one line per node, in pre-order, each node
    indented by two blanks per level below the root; when it allows
    fewer, the call raises [RecursionError]. *)
Theorem el_arbol_se_escribe (t : Tabla) (flujo : list string) (v : nat)
    (r : Resultado) :
  analizar v t (inicial flujo) = Some r ->
  match r with
  | Retorna a | Termina a =>
      forall raiz,
        arbol a = Some raiz ->
        es_arbol raiz = true
        /\ forall marcos,
             texto_arbol marcos a
             = Some (if profundidad raiz <=? marcos
                     then Escrito (String.concat ""
                                     (map linea_arbol (preorden raiz 0)))
                     else RecursionError)
  | Falla _ => True
  end.
Proof.
  intros H. apply analizar_iterar in H as (n & b & Hb & Hr).
  assert (Hs : sana b).
  { apply (iterar_invariante t sana (inicial flujo)) with (n := n);
      [|apply transicion_sana | assumption].
    split; [left; auto|]. split; [repeat constructor | discriminate]. }
  destruct Hs as (_ & _ & Hraiz).
  assert (G : forall a, arbol a = arbol b ->
                forall raiz, arbol a = Some raiz ->
                  es_arbol raiz = true
                  /\ forall marcos,
                       texto_arbol marcos a
                       = Some (if profundidad raiz <=? marcos
                               then Escrito (String.concat ""
                                               (map linea_arbol (preorden raiz 0)))
                               else RecursionError)).
  { intros a Ha raiz Hr'.
    assert (Hx : es_arbol raiz = true) by (apply Hraiz; congruence).
    split; [exact Hx|]. intros marcos. unfold texto_arbol. rewrite Hr'. f_equal.
    apply generar_salida_arbol_preorden. exact Hx. }
  destruct Hr as [[_ ->]|[_ P]]; [apply G; reflexivity|].
  apply paso_fin in P as [[e ->]|D]; [exact I|].
  apply desenlace_pila in D. destruct r as [a|a|e]; [| |exact I];
    apply G; tauto.
Qed.

Lemma el_arbol_se_escribe_testigo :
  exists a,
    analizar 20 tabla_definiciones
      (inicial ["tipo"; "identificador"; ";"; "$"]%string)
    = Some (Retorna a)
    /\ texto_arbol 5 a
       = Some (Escrito
           ("<programa>" ++ salto ++
            "  <Definiciones>" ++ salto ++
            "    <Definicion>" ++ salto ++
            "      <DefVar>" ++ salto ++
            "        tipo" ++ salto ++
            "        identificador" ++ salto ++
            "        <ListaVar>" ++ salto ++
            "        ;" ++ salto ++
            "    <Definiciones>" ++ salto)%string)
    /\ texto_arbol 4 a = Some RecursionError.
Proof.
  eassert (E : analizar 20 tabla_definiciones
                 (inicial ["tipo"; "identificador"; ";"; "$"]%string)
               = Some (Retorna _)) by (vm_compute; reflexivity).
  eexists. split; [exact E|].
  destruct (el_arbol_se_escribe _ _ _ _ E _ eq_refl) as [_ T].
  split; [rewrite (T 5) | rewrite (T 4)]; reflexivity.
Defined.



Lemma regla_fuera_de_rango_testigo :
  reducir tabla_definiciones (inicial ["$"%string]) "r53" = Fin (Falla KeyError).
Proof.
  apply (proj2 regla_fuera_de_rango tabla_definiciones (inicial ["$"%string])
           "r53" 53%Z eq_refl).
  unfold regla_definida. lia.
Defined.

(** ** The symbol file *)

Section Archivo_de_simbolos.

Lemma cadena_app (l1 l2 : list ascii) :
  cadena (l1 ++ l2) = (cadena l1 ++ cadena l2)%string.
Proof. induction l1 as [|x l1 IH]; simpl; [reflexivity | f_equal; exact IH]. Qed.

Lemma cadena_caracteres (s : string) : cadena (caracteres s) = s.
Proof. apply string_of_list_ascii_of_string. Qed.

Lemma split_tab_cons (c : ascii) (l actual : list ascii) :
  split_sep_aux ["009"%char] (c :: l) actual 0
  = if Ascii.eqb "009" c
    then cadena (rev actual) :: split_sep_aux ["009"%char] l [] 0
    else split_sep_aux ["009"%char] l (c :: actual) 0.
Proof.
  cbn [split_sep_aux es_prefijo]. destruct (Ascii.eqb "009" c); reflexivity.
Qed.

Lemma split_tab_no_vacio (l actual : list ascii) :
  split_sep_aux ["009"%char] l actual 0 <> [].
Proof.
  revert actual. induction l as [|c l IH]; intros actual;
    [discriminate|].
  rewrite split_tab_cons.
  destruct (Ascii.eqb "009" c); [discriminate | apply IH].
Qed.


Lemma split_tab_concat (l : list ascii) :
  forall actual,
    String.concat tabulador (split_sep_aux ["009"%char] l actual 0)
    = cadena (rev actual ++ l).
Proof.
  induction l as [|c l IH]; intros actual.
  - simpl. rewrite app_nil_r. reflexivity.
  - rewrite split_tab_cons. destruct (Ascii.eqb "009" c) eqn:E.
    + apply Ascii.eqb_eq in E. subst c.
      pose proof (split_tab_no_vacio l []) as Hne. pose proof (IH []) as H0.
      destruct (split_sep_aux ["009"%char] l [] 0) as [|y ys];
        [contradiction|].
      change (String.concat tabulador (cadena (rev actual) :: y :: ys))
        with (cadena (rev actual) ++ tabulador
              ++ String.concat tabulador (y :: ys))%string.
      rewrite H0. simpl rev. simpl app. rewrite cadena_app. reflexivity.
    + rewrite IH. simpl rev. rewrite <- app_assoc. reflexivity.
Qed.

(** A stripped line that splits into two fields is the first field,
    a tab and the second field. *)
Lemma split_tab_dos (s token valor : string) :
  split_sep tabulador s = [token; valor] ->
  s = (token ++ tabulador ++ valor)%string.
Proof.
  intros H. pose proof (split_tab_concat (caracteres s) []) as C.
  unfold split_sep in H. change (caracteres tabulador) with ["009"%char] in H.
  rewrite H in C. simpl in C. rewrite cadena_caracteres in C. auto.
Qed.


Lemma consultar_asignar (d : Dict) (k v k2 : string) :
  consultar (asignar d k v) k2
  = if String.eqb k k2 then Some v else consultar d k2.
Proof.
  induction d as [|[k0 v0] d IH]; simpl; [reflexivity|].
  destruct (String.eqb_spec k0 k) as [->|Hne]; simpl.
  - destruct (String.eqb k k2); reflexivity.
  - rewrite IH. destruct (String.eqb_spec k0 k2) as [->|Hne2]; [|reflexivity].
    destruct (String.eqb_spec k k2) as [->|_]; [contradiction | reflexivity].
Qed.

Lemma cargar_lineas_app (l1 l2 : list string) :
  forall d, cargar_lineas (l1 ++ l2) d = ligar (cargar_lineas l1 d) (cargar_lineas l2).
Proof.
  induction l1 as [|x l1 IH]; intros d; simpl; [reflexivity|].
  destruct (tiene_tabulador x); [|apply IH].
  destruct (split_sep tabulador (strip x)) as [|a [|b [|c r]]];
    try reflexivity.
  apply IH.
Qed.


End Archivo_de_simbolos.


(** X16.  The dictionary is keyed by the second field: after a load
    that succeeds, the last line with a tab gives the value of its
    key, that is, with the stripped line [token TAB valor] the entry
    for [valor] is [token]. *)
Theorem cargar_tokens_ultima_linea (lineas : list string) (linea : string)
    (d : Dict) :
  tiene_tabulador linea = true ->
  cargar_tokens (lineas ++ [linea]) = Bien d ->
  exists token valor,
    strip linea = (token ++ tabulador ++ valor)%string
    /\ consultar d valor = Some token.
Proof.
  unfold cargar_tokens. intros Ht H. rewrite cargar_lineas_app in H.
  destruct (cargar_lineas lineas []) as [d0|]; [|discriminate].
  simpl in H. rewrite Ht in H.
  destruct (split_sep tabulador (strip linea)) as [|a [|b [|c r]]] eqn:S;
    try discriminate.
  inversion H; subst. exists a, b. split; [apply split_tab_dos; assumption|].
  rewrite consultar_asignar, String.eqb_refl. reflexivity.
Qed.

Lemma cargar_tokens_ultima_linea_testigo :
  exists d,
    cargar_tokens ["identificador" ++ tabulador ++ "0" ++ salto;
                   "comentario" ++ salto;
                   "entero" ++ tabulador ++ "1" ++ salto;
                   "real" ++ tabulador ++ "1" ++ salto]%string = Bien d
    /\ consultar d "1" = Some "real"%string.
Proof.
  eexists. split; [vm_compute; reflexivity|].
  destruct (cargar_tokens_ultima_linea
              ["identificador" ++ tabulador ++ "0" ++ salto;
               "comentario" ++ salto;
               "entero" ++ tabulador ++ "1" ++ salto]%string
              ("real" ++ tabulador ++ "1" ++ salto)%string _ eq_refl
              ltac:(vm_compute; reflexivity))
    as (token & valor & Hs & Hc).
  vm_compute. reflexivity.
Defined.

(** X17.  Every entry of the dictionary comes from a line of the file:
    if the load gives the entry [token] for the key [valor], some line
    with a tab is, once stripped, [token TAB valor]. *)
Theorem cargar_tokens_origen (lineas : list string) (d : Dict)
    (valor token : string) :
  cargar_tokens lineas = Bien d ->
  consultar d valor = Some token ->
  exists linea,
    In linea lineas
    /\ tiene_tabulador linea = true
    /\ strip linea = (token ++ tabulador ++ valor)%string.
Proof.
  unfold cargar_tokens. intros H Hc.
  assert (G : forall lineas d0 d,
             cargar_lineas lineas d0 = Bien d ->
             consultar d valor = Some token ->
             consultar d0 valor = Some token
             \/ exists linea,
                  In linea lineas /\ tiene_tabulador linea = true
                  /\ strip linea = (token ++ tabulador ++ valor)%string).
  { clear. induction lineas as [|linea resto IH]; intros d0 d H Hc; simpl in H.
    - inversion H; subst. auto.
    - destruct (tiene_tabulador linea) eqn:Ht.
      + destruct (split_sep tabulador (strip linea)) as [|a [|b [|c r]]] eqn:S;
          try discriminate.
        destruct (IH _ _ H Hc) as [H0|(l & Hin & Hl)].
        * rewrite consultar_asignar in H0.
          destruct (String.eqb_spec b valor) as [->|_]; [|auto].
          inversion H0; subst. right. exists linea.
          repeat split; [left; reflexivity | assumption |].
          apply split_tab_dos. assumption.
        * right. exists l. simpl. tauto.
      + destruct (IH _ _ H Hc) as [H0|(l & Hin & Hl)]; [auto|].
        right. exists l. simpl. tauto. }
  destruct (G lineas [] d H Hc) as [H0|H0]; [discriminate | exact H0].
Qed.

Lemma cargar_tokens_origen_testigo :
  exists linea,
    In linea ["tipo" ++ tabulador ++ "4" ++ salto]%string
    /\ tiene_tabulador linea = true
    /\ strip linea = ("tipo" ++ tabulador ++ "4")%string.
Proof.
  apply (cargar_tokens_origen ["tipo" ++ tabulador ++ "4" ++ salto]%string
           [("4", "tipo")]%string "4" "tipo");
    vm_compute; reflexivity.
Defined.

(** ** Words and numbers standing alone *)

Section Palabras.

Lemma buscar_cons (n : string) (r : regex) (ps : list (string * regex))
    (texto : list ascii) (pos : nat) :
  buscar ((n, r) :: ps) texto pos
  = match re_match r texto pos with
    | Some fin => Some (n, fin)
    | None => buscar ps texto pos
    end.
Proof. reflexivity. Qed.

Lemma re_match_inicio (r : regex) (texto : list ascii) :
  re_match r texto 0
  = match coincide r None texto (fun _ resto => Some resto) with
    | Some resto => Some (length texto - length resto)
    | None => None
    end.
Proof. reflexivity. Qed.

(** A literal word matches exactly the texts that start with it. *)
Lemma lit_prefijo (w : string) :
  forall prev s (k : cont),
    coincide (lit w) prev s k
    = match es_prefijo (caracteres w) s with
      | Some s' => k (ultimo prev (caracteres w)) s'
      | None => None
      end.
Proof.
  induction w as [|c w IH]; intros prev s k; [reflexivity|].
  cbn [lit coincide caracteres list_ascii_of_string es_prefijo].
  destruct s as [|c' s]; [reflexivity|].
  destruct (Ascii.eqb c c') eqn:E; [|reflexivity].
  apply Ascii.eqb_eq in E. subst c'. rewrite IH. reflexivity.
Qed.

Lemma es_prefijo_app (p l s' : list ascii) :
  es_prefijo p l = Some s' -> l = p ++ s'.
Proof.
  revert l. induction p as [|a p IH]; intros l H; simpl in H.
  - inversion H. reflexivity.
  - destruct l as [|b l]; [discriminate|].
    destruct (Ascii.eqb a b) eqn:E; [|discriminate].
    apply Ascii.eqb_eq in E. subst b. simpl. f_equal. apply IH. assumption.
Qed.

Lemma es_prefijo_refl (p : list ascii) : es_prefijo p p = Some [].
Proof.
  induction p as [|a p IH]; simpl; [reflexivity|].
  rewrite Ascii.eqb_refl. exact IH.
Qed.

(** The greedy repetition over a text all of whose characters are in
    the class takes the whole text, if what follows accepts that. *)
Lemma codiciosa_todo (p : ascii -> bool) (run : list ascii) :
  forall prev (k : cont) x,
    forallb p run = true ->
    k (ultimo prev run) [] = Some x ->
    codiciosa p prev run k = Some x.
Proof.
  induction run as [|c run IH]; intros prev k x Hp Hk; simpl; [exact Hk|].
  simpl in Hp. apply andb_true_iff in Hp as [Hc Hp].
  rewrite Hc, (IH (Some c) k x Hp Hk). reflexivity.
Qed.

Lemma ultimo_palabra (run : list ascii) :
  forall prev,
    run <> [] ->
    forallb es_palabra run = true ->
    palabra_en (ultimo prev run) = true.
Proof.
  induction run as [|c run IH]; intros prev Hne Hr; [contradiction|].
  simpl in Hr. apply andb_true_iff in Hr as [Hc Hr].
  destruct run as [|d run]; [exact Hc|].
  apply (IH (Some c)); [discriminate | exact Hr].
Qed.

Lemma resto_id_palabra (c : ascii) : resto_id c = true -> es_palabra c = true.
Proof.
  destruct c as [[] [] [] [] [] [] [] []]; vm_compute; intros H;
    first [reflexivity | discriminate H].
Qed.

Lemma inicio_id_clases (c : ascii) :
  inicio_id c = true ->
  resto_id c = true /\ es_espacio c = false /\ es_digito c = false
  /\ Ascii.eqb "(" c = false /\ Ascii.eqb ")" c = false
  /\ Ascii.eqb "{" c = false /\ Ascii.eqb "}" c = false.
Proof.
  destruct c as [[] [] [] [] [] [] [] []]; vm_compute; intros H;
    first [discriminate H | repeat split].
Qed.

Lemma es_digito_clases (c : ascii) :
  es_digito c = true ->
  inicio_id c = false /\ es_espacio c = false
  /\ Ascii.eqb "(" c = false /\ Ascii.eqb ")" c = false
  /\ Ascii.eqb "{" c = false /\ Ascii.eqb "}" c = false
  /\ Ascii.eqb "i" c = false /\ Ascii.eqb "f" c = false.
Proof.
  destruct c as [[] [] [] [] [] [] [] []]; vm_compute; intros H;
    first [discriminate H | repeat split].
Qed.

Lemma forallb_impl (p q : ascii -> bool) (l : list ascii) :
  (forall c, p c = true -> q c = true) ->
  forallb p l = true -> forallb q l = true.
Proof.
  intros H. induction l as [|c l IH]; simpl; [reflexivity|].
  intros Hl. apply andb_true_iff in Hl as [Hc Hl].
  rewrite (H c Hc), (IH Hl). reflexivity.
Qed.

(** [\bkw\b] at the start of a text made of word characters matches
    only the text [kw] itself. *)
Lemma re_match_palabra_sola (kw : string) (W : list ascii) :
  kw <> ""%string ->
  forallb es_palabra W = true ->
  re_match (palabra kw) W 0
  = if String.eqb (cadena W) kw then Some (length W) else None.
Proof.
  intros Hkw Hw. rewrite re_match_inicio. unfold palabra.
  cbn [coincide]. rewrite lit_prefijo.
  assert (HK : caracteres kw <> []) by (destruct kw; [contradiction | discriminate]).
  destruct (es_prefijo (caracteres kw) W) as [s'|] eqn:P.
  - apply es_prefijo_app in P. subst W.
    rewrite forallb_app in Hw. apply andb_true_iff in Hw as [Hk Hs].
    assert (F0 : es_frontera None (caracteres kw ++ s') = true).
    { destruct (caracteres kw) as [|c0 l0]; [contradiction|]. simpl in Hk.
      apply andb_true_iff in Hk as [Hc _]. unfold es_frontera. simpl.
      rewrite Hc. reflexivity. }
    rewrite F0.
    pose proof (ultimo_palabra (caracteres kw) None HK Hk) as Hu.
    destruct s' as [|d s'].
    + rewrite app_nil_r. unfold cadena, caracteres in *.
      rewrite string_of_list_ascii_of_string, String.eqb_refl.
      unfold es_frontera. rewrite Hu. simpl. rewrite Nat.sub_0_r. reflexivity.
    + simpl in Hs. apply andb_true_iff in Hs as [Hd _].
      unfold es_frontera. rewrite Hu. simpl. rewrite Hd. simpl.
      destruct (String.eqb_spec (cadena (caracteres kw ++ d :: s')) kw) as [E|_];
        [|reflexivity].
      exfalso. apply (f_equal caracteres) in E. unfold cadena, caracteres in E.
      rewrite list_ascii_of_string_of_list_ascii in E.
      apply (f_equal (@length ascii)) in E. rewrite length_app in E.
      simpl in E. lia.
  - destruct (es_frontera None W); [|destruct (String.eqb _ _) eqn:E].
    + destruct (String.eqb_spec (cadena W) kw) as [E|_]; [|reflexivity].
      exfalso. apply (f_equal caracteres) in E. unfold cadena, caracteres in E.
      rewrite list_ascii_of_string_of_list_ascii in E. subst W.
      unfold caracteres in P. rewrite es_prefijo_refl in P. discriminate.
    + exfalso. apply String.eqb_eq in E.
      apply (f_equal caracteres) in E. unfold cadena, caracteres in E.
      rewrite list_ascii_of_string_of_list_ascii in E. subst W.
      unfold caracteres in P. rewrite es_prefijo_refl in P. discriminate.
    + reflexivity.
Qed.

Lemma re_match_alt (a b : regex) (texto : list ascii) (pos : nat) :
  re_match (a <|> b) texto pos
  = match re_match a texto pos with
    | Some fin => Some fin
    | None => re_match b texto pos
    end.
Proof.
  unfold re_match. cbn [coincide].
  destruct (coincide a _ (skipn pos texto) _); reflexivity.
Qed.

(** The identifier pattern takes all of a text that spells an
    identifier. *)
Lemma re_match_identificador_solo (c : ascii) (r : list ascii) :
  inicio_id c = true ->
  forallb resto_id r = true ->
  re_match re_identificador (c :: r) 0 = Some (length (c :: r)).
Proof.
  intros Hc Hr. rewrite re_match_inicio. unfold re_identificador.
  cbn [coincide].
  destruct (inicio_id_clases c Hc) as (Hrc & _).
  pose proof (resto_id_palabra c Hrc) as Hw.
  assert (F0 : es_frontera None (c :: r) = true)
    by (unfold es_frontera; simpl; rewrite Hw; reflexivity).
  rewrite F0, Hc.
  rewrite (codiciosa_todo resto_id r (Some c) _ [] Hr).
  - reflexivity.
  - assert (Hu : palabra_en (ultimo (Some c) r) = true).
    { change (ultimo (Some c) r) with (ultimo None (c :: r)).
      apply ultimo_palabra; [discriminate|]. simpl. rewrite Hw.
      apply (forallb_impl resto_id es_palabra r resto_id_palabra Hr). }
    unfold es_frontera. rewrite Hu. reflexivity.
Qed.

Lemma re_match_entero_solo (c : ascii) (r : list ascii) :
  es_digito c = true ->
  forallb es_digito r = true ->
  re_match re_entero (c :: r) 0 = Some (length (c :: r)).
Proof.
  intros Hc Hr. rewrite re_match_inicio. unfold re_entero.
  cbn [coincide].
  pose proof (es_digito_es_palabra c Hc) as Hw.
  assert (F0 : es_frontera None (c :: r) = true)
    by (unfold es_frontera; simpl; rewrite Hw; reflexivity).
  rewrite F0, Hc.
  rewrite (codiciosa_todo es_digito r (Some c) _ [] Hr).
  - reflexivity.
  - unfold es_frontera. rewrite (ultimo_digito c r Hc Hr). reflexivity.
Qed.

Lemma re_match_car (x c : ascii) (r : list ascii) :
  Ascii.eqb x c = false -> re_match (Car x) (c :: r) 0 = None.
Proof. intros H. rewrite re_match_inicio. cbn [coincide]. rewrite H. reflexivity. Qed.

End Palabras.

(** X18.  A text that spells an identifier and nothing else gives
    exactly one token, which covers all of it: [tipo] for [int] and
    [float], and [identificador] for every other word, the words [if],
    [else], [while] and [return] among them. *)
Theorem lexico_palabra_sola (w : string) :
  es_identificador w = true ->
  analizador_lexico w
  = Some [if String.eqb w "int" || String.eqb w "float"
          then "tipo"%string else "identificador"%string].
Proof.
  unfold es_identificador, analizador_lexico. intros Hw.
  pose proof (cadena_caracteres w) as Hcw.
  destruct (caracteres w) as [|c r] eqn:W; [discriminate|].
  apply andb_true_iff in Hw as [Hc Hr].
  destruct (inicio_id_clases c Hc) as (Hrc & Hsp & _ & H1 & H2 & H3 & H4).
  assert (Hpal : forallb es_palabra (c :: r) = true).
  { simpl. rewrite (resto_id_palabra c Hrc).
    apply (forallb_impl resto_id es_palabra r resto_id_palabra Hr). }
  change (length (c :: r)) with (S (length r)). rewrite bucle_S.
  simpl nth_error. cbv iota. rewrite Hsp.
  assert (B : buscar patrones (c :: r) 0
              = Some (if String.eqb w "int" || String.eqb w "float"
                      then "tipo"%string else "identificador"%string,
                      length (c :: r))).
  { unfold patrones. rewrite !buscar_cons.
    rewrite (re_match_car "(" c r H1), (re_match_car ")" c r H2),
      (re_match_car "{" c r H3), (re_match_car "}" c r H4).
    rewrite re_match_alt.
    rewrite (re_match_palabra_sola "int" (c :: r)) by (discriminate || assumption).
    rewrite (re_match_palabra_sola "float" (c :: r)) by (discriminate || assumption).
    rewrite Hcw.
    destruct (String.eqb w "int"); [reflexivity|].
    destruct (String.eqb w "float"); [reflexivity|]. simpl orb. cbv iota.
    rewrite (re_match_identificador_solo c r Hc Hr). reflexivity. }
  rewrite B. destruct (length r); simpl;
    rewrite (proj2 (nth_error_None r _)) by lia; reflexivity.
Qed.

Lemma lexico_palabra_sola_testigo :
  analizador_lexico "while" = Some ["identificador"%string]
  /\ analizador_lexico "float" = Some ["tipo"%string].
Proof.
  split.
  - apply (lexico_palabra_sola "while"). reflexivity.
  - apply (lexico_palabra_sola "float"). reflexivity.
Defined.

(** X19.  A text made of decimal digits and nothing else gives exactly
    one token [entero], however long it is. *)
Theorem lexico_numero_solo (w : string) :
  w <> ""%string ->
  forallb es_digito (caracteres w) = true ->
  analizador_lexico w = Some ["entero"%string].
Proof.
  unfold analizador_lexico. intros Hne Hw.
  destruct (caracteres w) as [|c r] eqn:W;
    [destruct w; [contradiction | discriminate]|].
  simpl in Hw. apply andb_true_iff in Hw as [Hc Hr].
  destruct (es_digito_clases c Hc) as (Hi & Hsp & H1 & H2 & H3 & H4 & H5 & H6).
  change (length (c :: r)) with (S (length r)). rewrite bucle_S.
  simpl nth_error. cbv iota. rewrite Hsp.
  assert (B : buscar patrones (c :: r) 0 = Some ("entero"%string, length (c :: r))).
  { unfold patrones. rewrite !buscar_cons.
    rewrite (re_match_car "(" c r H1), (re_match_car ")" c r H2),
      (re_match_car "{" c r H3), (re_match_car "}" c r H4).
    assert (T : re_match (palabra "int" <|> palabra "float") (c :: r) 0 = None).
    { rewrite re_match_alt, !re_match_inicio. unfold palabra.
      cbn [coincide]. rewrite !lit_prefijo.
      cbn [caracteres list_ascii_of_string es_prefijo]. rewrite H5, H6.
      destruct (es_frontera None (c :: r)); reflexivity. }
    rewrite T.
    assert (Id : re_match re_identificador (c :: r) 0 = None).
    { rewrite re_match_inicio. unfold re_identificador. cbn [coincide].
      rewrite Hi. destruct (es_frontera None (c :: r)); reflexivity. }
    rewrite Id, (re_match_entero_solo c r Hc Hr). reflexivity. }
  rewrite B. destruct (length r); simpl;
    rewrite (proj2 (nth_error_None r _)) by lia; reflexivity.
Qed.

Lemma lexico_numero_solo_testigo :
  analizador_lexico "20250101" = Some ["entero"%string].
Proof.
  apply (lexico_numero_solo "20250101"); [discriminate | reflexivity].
Defined.
